(** * pattern-splitter: the tiling engine of [src/pattern-splitter.ts]

    A shallow embedding of the unit parser, the dimension resolver, the
    border-instruction resolver and the page composer [generateTiledPDF],
    of the marks it draws on a tile, and of the preview and the export of
    the page ([src/main.ts]), followed by the properties the specification
    states about them and by further properties of the code.

    Numbers.  A JavaScript [number] is modelled by [num]: NaN, the two
    infinities, or a finite value held as an exact rational.  Binary64
    rounding, overflow to Infinity and the sign of zero are not tracked:
    finite arithmetic is exact and every finite result is kept in lowest
    terms ([Qred]), so that equal values are equal terms. *)

From Stdlib Require Import ZArith QArith Qround Qreduction Qcanon Lqa Lia.
From Stdlib Require Import Bool List String Ascii DecimalString.
Import ListNotations.

Local Open Scope Q_scope.

(** ** JavaScript numbers *)

Module JS.

Inductive num : Type :=
| NaN
| Inf (negative : bool)
| Fin (q : Q).

Definition fin (q : Q) : num := Fin (Qred q).
Definition of_Z (z : Z) : num := Fin (inject_Z z).
Definition of_nat (n : nat) : num := of_Z (Z.of_nat n).

Definition Qneg (q : Q) : bool := (Qnum q <? 0)%Z.
Definition Qzero (q : Q) : bool := (Qnum q =? 0)%Z.

(** [a + b] *)
Definition add (a b : num) : num :=
  match a, b with
  | NaN, _ | _, NaN => NaN
  | Inf s, Inf t => if Bool.eqb s t then Inf s else NaN
  | Inf s, Fin _ | Fin _, Inf s => Inf s
  | Fin x, Fin y => fin (x + y)
  end.

(** unary minus *)
Definition neg (a : num) : num :=
  match a with
  | NaN => NaN
  | Inf s => Inf (negb s)
  | Fin x => fin (- x)
  end.

(** [a - b] *)
Definition sub (a b : num) : num := add a (neg b).

(** [a * b] *)
Definition mul (a b : num) : num :=
  match a, b with
  | NaN, _ | _, NaN => NaN
  | Inf s, Inf t => Inf (xorb s t)
  | Inf s, Fin y | Fin y, Inf s => if Qzero y then NaN else Inf (xorb s (Qneg y))
  | Fin x, Fin y => fin (x * y)
  end.

(** [a / b]; a zero divisor counts as +0 *)
Definition div (a b : num) : num :=
  match a, b with
  | NaN, _ | _, NaN => NaN
  | Inf _, Inf _ => NaN
  | Inf s, Fin y => Inf (xorb s (Qneg y))
  | Fin _, Inf _ => Fin 0
  | Fin x, Fin y =>
      if Qzero y then (if Qzero x then NaN else Inf (Qneg x))
      else fin (x / y)
  end.

(** [a < b] *)
Definition lt (a b : num) : bool :=
  match a, b with
  | NaN, _ | _, NaN => false
  | Inf s, Inf t => s && negb t
  | Inf s, Fin _ => s
  | Fin _, Inf t => negb t
  | Fin x, Fin y => if Qlt_le_dec x y then true else false
  end.

(** [a > b] *)
Definition gt (a b : num) : bool := lt b a.

(** [a === b] on two numbers *)
Definition eqb (a b : num) : bool :=
  match a, b with
  | Inf s, Inf t => Bool.eqb s t
  | Fin x, Fin y => Qeq_bool x y
  | _, _ => false
  end.

(** ToBoolean of a number: 0 and NaN are falsy *)
Definition truthy (a : num) : bool :=
  match a with
  | NaN => false
  | Inf _ => true
  | Fin x => negb (Qzero x)
  end.

(** [Math.ceil] *)
Definition ceil (a : num) : num :=
  match a with
  | Fin x => of_Z (Qceiling x)
  | _ => a
  end.

(** [Math.round]: the nearest integer, halves towards +Infinity *)
Definition round (a : num) : num :=
  match a with
  | Fin x => of_Z (Qfloor (x + (1 # 2)))
  | _ => a
  end.

(** [ToBoolean] of a [number | null] *)
Definition truthy_opt (a : option num) : bool :=
  match a with
  | Some x => truthy x
  | None => false
  end.

End JS.

Import JS.

Declare Scope num_scope.
Delimit Scope num_scope with num.
Bind Scope num_scope with num.
Notation "a + b" := (JS.add a b) : num_scope.
Notation "a - b" := (JS.sub a b) : num_scope.
Notation "a * b" := (JS.mul a b) : num_scope.
Notation "a / b" := (JS.div a b) : num_scope.
Notation "a <? b" := (JS.lt a b) : num_scope.
Notation "a >? b" := (JS.gt a b) : num_scope.
Notation "a === b" := (JS.eqb a b) (at level 70, no associativity) : num_scope.

(** Number literals of the source *)
Definition lit (q : Q) : num := JS.fin q.
Coercion JS.of_nat : nat >-> num.

(** ** Border instructions *)

Inductive BorderInstruction : Type := glue | cut | none.

Record TileBorderInstructions : Type := mkBorders {
  top : BorderInstruction;
  right : BorderInstruction;
  bottom : BorderInstruction;
  left : BorderInstruction
}.

Definition getTileBorderInstructions
  (row col totalRows totalCols : num) : TileBorderInstructions :=
  let isFirstRow := (row === lit 0)%num in
  let isLastRow := (row === totalRows - lit 1)%num in
  let isFirstCol := (col === lit 0)%num in
  let isLastCol := (col === totalCols - lit 1)%num in
  {| top := if isFirstRow then none else cut;
     right := if isLastCol then none else glue;
     bottom := if isLastRow then none else glue;
     left := if isFirstCol then none else cut |}.

(** ** Strings *)

Local Open Scope string_scope.
Local Open Scope char_scope.

(** The ASCII characters of the regular expression class [\s], which are also
    the ones [parseFloat] skips at the start of its argument (TAB, LF, VT, FF,
    CR, SP); strings are sequences of 8-bit characters here. *)
Definition isWhiteSpace (c : ascii) : bool :=
  let n := N_of_ascii c in
  ((9 <=? n) && (n <=? 13) || (n =? 32))%N.

Definition lower (c : ascii) : ascii :=
  let n := N_of_ascii c in
  if ((65 <=? n) && (n <=? 90))%N then ascii_of_N (n + 32) else c.

(** [String.prototype.toLowerCase] *)
Fixpoint toLowerCase (s : string) : string :=
  match s with
  | EmptyString => EmptyString
  | String c s' => String (lower c) (toLowerCase s')
  end.

(** [String.prototype.startsWith] *)
Fixpoint startsWith (s p : string) : bool :=
  match p, s with
  | EmptyString, _ => true
  | String a p', String b s' => Ascii.eqb a b && startsWith s' p'
  | String _ _, EmptyString => false
  end.

(** [String.prototype.endsWith] *)
Fixpoint endsWith (s suffix : string) : bool :=
  String.eqb s suffix ||
  match s with
  | EmptyString => false
  | String _ s' => endsWith s' suffix
  end.

Fixpoint trimStart (s : string) : string :=
  match s with
  | String c s' => if isWhiteSpace c then trimStart s' else s
  | EmptyString => s
  end.

Definition digit (c : ascii) : option Z :=
  let n := Z.of_N (N_of_ascii c) in
  if ((48 <=? n) && (n <=? 57))%Z then Some (n - 48)%Z else None.

(** The longest run of decimal digits at the start of [s]: its value on top of
    [acc], how many digits were read on top of [len], and what follows. *)
Fixpoint digits (s : string) (acc : Z) (len : nat) : Z * nat * string :=
  match s with
  | String c s' =>
      match digit c with
      | Some d => digits s' (10 * acc + d)%Z (S len)
      | None => (acc, len, s)
      end
  | EmptyString => (acc, len, s)
  end.

(** An optional sign: whether it is a minus, and what follows it. *)
Definition sign (s : string) : bool * string :=
  match s with
  | String c t =>
      if Ascii.eqb c "-" then (true, t)
      else if Ascii.eqb c "+" then (false, t)
      else (false, s)
  | EmptyString => (false, s)
  end.

(** The ExponentPart [e] or [E] followed by an optionally signed integer; an
    incomplete one is not part of the number. *)
Definition exponent (s : string) : Z :=
  match s with
  | String c s' =>
      if Ascii.eqb c "e" || Ascii.eqb c "E" then
        let '(negative, s'') := sign s' in
        let '(e, n, _) := digits s'' 0 0 in
        match n with
        | O => 0%Z
        | S _ => if negative then (- e)%Z else e
        end
      else 0%Z
  | EmptyString => 0%Z
  end.

(** The digits after a decimal point, if there is one. *)
Definition fraction (s : string) : Z * nat * string :=
  match s with
  | String c t => if Ascii.eqb c "." then digits t 0 0 else (0%Z, O, s)
  | EmptyString => (0%Z, O, s)
  end.

(** [parseFloat]: the value of the longest prefix of the trimmed argument that
    is a StrDecimalLiteral, NaN when there is none. *)
Definition parseFloat (str : string) : num :=
  let '(negative, s) := sign (trimStart str) in
  if startsWith s "Infinity" then Inf negative
  else
    let '(ip, il, s1) := digits s 0 0 in
    let '(fp, fl, s2) := fraction s1 in
    match (il + fl)%nat with
    | O => NaN
    | S _ =>
        let m := inject_Z ip + inject_Z fp / inject_Z (10 ^ Z.of_nat fl) in
        JS.fin ((if negative then - m else m) * Qpower 10 (exponent s2))
    end.

(** [s.split(re)] for a regular expression [re] matching exactly one character
    of the class [sep]; the pieces between separators, empty ones included. *)
Fixpoint split (sep : ascii -> bool) (s : string) : list string :=
  match s with
  | EmptyString => [EmptyString]
  | String c s' =>
      if sep c then EmptyString :: split sep s'
      else
        match split sep s' with
        | piece :: rest => String c piece :: rest
        | [] => [String c EmptyString]
        end
  end.

(** ToBoolean of a string *)
Definition nonempty (s : string) : bool :=
  match s with
  | EmptyString => false
  | String _ _ => true
  end.

(** [viewBox.split(/\s|,/).filter(Boolean).map(parseFloat)] *)
Definition parseViewBox (viewBox : string) : list num :=
  map parseFloat
    (filter nonempty (split (fun c => isWhiteSpace c || Ascii.eqb c ",") viewBox)).

Local Close Scope char_scope.

(** ** Units and dimensions *)

Definition PX_TO_MM : num := (lit 25.4 / lit 96)%num.

Definition parseUnit (val : option string) : option num :=
  match val with
  | None => None
  | Some v =>
      if negb (nonempty v) then None
      else
        let val := toLowerCase v in
        let num := parseFloat val in
        if endsWith val "mm" then Some num
        else if endsWith val "cm" then Some (num * lit 10)%num
        else if endsWith val "in" then Some (num * lit 25.4)%num
        else if endsWith val "pt" then Some (num * (lit 25.4 / lit 72))%num
        else if endsWith val "pc" then Some (num * (lit 25.4 / lit 6))%num
        else Some (num * PX_TO_MM)%num
  end.

(** The attributes of the root element that the program reads; [None] is an
    absent attribute ([getAttribute] returns null, [hasAttribute] false). *)
Record SVGElement : Type := mkSvg {
  attr_width : option string;
  attr_height : option string;
  attr_viewBox : option string
}.

Record Size : Type := mkSize { w : num; h : num }.

(** An array element as a number: out of range is [undefined], which every
    arithmetic operation turns into NaN. *)
Definition at_index (l : list num) (i : nat) : num := nth i l NaN.

(** [if (!x) x = d], as the value [x] has afterwards *)
Definition or_else (x : option num) (d : num) : num :=
  match x with
  | Some v => if truthy v then v else d
  | None => d
  end.

Definition getSvgDimensionsInMM (svg : SVGElement) : Size :=
  let w := attr_width svg in
  let h := attr_height svg in
  let viewBox := attr_viewBox svg in
  let widthMM := parseUnit w in
  let heightMM := parseUnit h in
  let '(widthMM, heightMM) :=
    match viewBox with
    | Some vb =>
        if (negb (truthy_opt widthMM) || negb (truthy_opt heightMM)) && nonempty vb then
          let parts := parseViewBox vb in
          if (List.length parts =? 4)%nat then
            (Some (or_else widthMM (at_index parts 2 * PX_TO_MM)%num),
             Some (or_else heightMM (at_index parts 3 * PX_TO_MM)%num))
          else (widthMM, heightMM)
        else (widthMM, heightMM)
    | None => (widthMM, heightMM)
    end in
  {| w := or_else widthMM (lit 210); h := or_else heightMM (lit 297) |}.

(** ** The page composer *)

Record PatternSplitterOptions : Type := mkOptions {
  svgRoot : SVGElement;     (* the root element [DOMParser] yields for [svgText] *)
  paperWidth : num;
  paperHeight : num;
  margin : num;
  onProgress : bool         (* whether a callback is supplied *)
}.

Record PatternSplitterResult : Type := mkResult {
  tiles : num;
  rows : num;
  cols : num
}.

Record Rect : Type := mkRect { rx : num; ry : num; rwidth : num; rheight : num }.

(** What the run does to the outside world, in order.  The drawing calls that
    follow a tile's rendering (dashed border, label, corner marks, ruler,
    diamonds, cut and glue labels) are one [Annotate] event. *)
Inductive event : Type :=
| Import                                   (* jspdf and svg2pdf.js are loaded *)
| ParseSvg                                 (* DOMParser, scripts removed *)
| NewPdf (landscape : bool) (format : num * num)
| AddPage (format : num * num)
| Progress (pct : num) (message : string)  (* the callback is called *)
| Render (source target : Rect)            (* svg2pdf on the clone with viewBox [source] *)
| Annotate (label : string) (diamonds : list bool) (borders : TileBorderInstructions)
| Output.                                  (* pdf.output('blob') *)

Inductive error : Type :=
| Error (message : string)
| RenderRejected.

Inductive outcome (A : Type) : Type :=
| Returned (a : A)
| Thrown (e : error)
| OutOfFuel.
Arguments Returned {A} a.
Arguments Thrown {A} e.
Arguments OutOfFuel {A}.

Record state : Type := mkState { log : list event; processedCount : nat }.

Definition M (A : Type) : Type := state -> outcome A * state.

Definition ret {A} (a : A) : M A := fun st => (Returned a, st).
Definition bind {A B} (m : M A) (k : A -> M B) : M B :=
  fun st =>
    match m st with
    | (Returned a, st') => k a st'
    | (Thrown e, st') => (Thrown e, st')
    | (OutOfFuel, st') => (OutOfFuel, st')
    end.
Definition throw {A} (e : error) : M A := fun st => (Thrown e, st).
Definition emit (e : event) : M unit :=
  fun st => (Returned tt, {| log := log st ++ [e]; processedCount := processedCount st |}).
Definition when (b : bool) (m : M unit) : M unit := if b then m else ret tt.
(** [processedCount++], giving the new value *)
Definition incr : M nat :=
  fun st => (Returned (S (processedCount st)),
             {| log := log st; processedCount := S (processedCount st) |}).

Notation "x <- m ;; k" := (bind m (fun x => k))
  (at level 61, m at next level, right associativity).
Notation "m ;; k" := (bind m (fun _ => k))
  (at level 61, right associativity).

(** [for (let i = i0; i < bound; i++) body(i)]; each iteration takes one unit
    of fuel. *)
Fixpoint for_loop (fuel : nat) (i : nat) (bound : num) (body : nat -> M unit) : M unit :=
  if (of_nat i <? bound)%num then
    match fuel with
    | O => fun st => (OutOfFuel, st)
    | S fuel' => body i ;; for_loop fuel' (S i) bound body
    end
  else ret tt.

Definition show (n : nat) : string := NilZero.string_of_uint (Nat.to_uint n).

(** The values [generateTiledPDF] computes between parsing and the tile loop *)
Record Layout : Type := mkLayout {
  svgWidthMM : num;
  svgHeightMM : num;
  viewBox : list num;
  usableW : num;
  usableH : num;
  gridCols : num;
  gridRows : num;
  totalTiles : num;
  scaleX : num;
  scaleY : num
}.

Definition layout (options : PatternSplitterOptions) : Layout :=
  let svgElement := svgRoot options in
  let size := getSvgDimensionsInMM svgElement in
  let svgWidthMM := w size in
  (* a missing viewBox is set to "0 0 w/PX h/PX" and read back *)
  let viewBox :=
    match attr_viewBox svgElement with
    | None => [lit 0; lit 0; (w size / PX_TO_MM)%num; (h size / PX_TO_MM)%num]
    | Some vb => parseViewBox vb
    end in
  let vbW := at_index viewBox 2 in
  let vbH := at_index viewBox 3 in
  let vbAspect := (vbW / vbH)%num in
  let svgHeightMM := (svgWidthMM / vbAspect)%num in
  let usableW := (paperWidth options - lit 2 * margin options)%num in
  let usableH := (paperHeight options - lit 2 * margin options)%num in
  let cols := JS.ceil (svgWidthMM / usableW) in
  let rows := JS.ceil (svgHeightMM / usableH) in
  let totalTiles := (cols * rows)%num in
  let vw := at_index viewBox 2 in
  let vh := at_index viewBox 3 in
  {| svgWidthMM := svgWidthMM; svgHeightMM := svgHeightMM; viewBox := viewBox;
     usableW := usableW; usableH := usableH;
     gridCols := cols; gridRows := rows; totalTiles := totalTiles;
     scaleX := (vw / svgWidthMM)%num; scaleY := (vh / svgHeightMM)%num |}.

(** The viewBox given to the clone rendered into tile [(r, c)] *)
Definition tileViewBox (L : Layout) (r c : nat) : Rect :=
  let vx := at_index (viewBox L) 0 in
  let vy := at_index (viewBox L) 1 in
  let startX_MM := (c * usableW L)%num in
  let startY_MM := (r * usableH L)%num in
  let tileVx := (vx + startX_MM * scaleX L)%num in
  let tileVy := (vy + startY_MM * scaleY L)%num in
  let tileVw := (usableW L * scaleX L)%num in
  let tileVh := (usableH L * scaleY L)%num in
  {| rx := tileVx; ry := tileVy; rwidth := tileVw; rheight := tileVh |}.

Section Composer.

(** The external renderer: whether the promise of [svg2pdf] for a request
    resolves ([true]) or rejects. *)
Variable svg2pdfFn : Rect -> Rect -> bool.

Definition await_svg2pdf (source target : Rect) : M unit :=
  emit (Render source target) ;;
  if svg2pdfFn source target then ret tt else throw RenderRejected.

(** The body of the two nested loops *)
Definition processTile (options : PatternSplitterOptions) (L : Layout) (r c : nat) : M unit :=
  let format := (paperWidth options, paperHeight options) in
  let margin := margin options in
  when ((r >? lit 0)%num || (c >? lit 0)%num) (emit (AddPage format)) ;;
  count <- incr ;;
  when (onProgress options)
    (let pct := JS.round (count / totalTiles L * lit 100)%num in
     emit (Progress pct ("Generating Tile " ++ show (r + 1) ++ "-" ++ show (c + 1) ++ "..."))) ;;
  await_svg2pdf (tileViewBox L r c)
    {| rx := margin; ry := margin; rwidth := usableW L; rheight := usableH L |} ;;
  let diamonds :=
    [ (c <? gridCols L - lit 1)%num; (c >? lit 0)%num;
      (r <? gridRows L - lit 1)%num; (r >? lit 0)%num ] in
  let borderInstr := getTileBorderInstructions r c (gridRows L) (gridCols L) in
  emit (Annotate ("Top | Tile: " ++ show (r + 1) ++ "-" ++ show (c + 1)) diamonds borderInstr).

Definition generateTiledPDF (fuel : nat) (options : PatternSplitterOptions)
  : M PatternSplitterResult :=
  if (margin options <? lit 10)%num then
    throw (Error "Margin must be at least 10mm for proper labeling.")
  else
    emit Import ;;
    emit ParseSvg ;;
    let L := layout options in
    emit (NewPdf (paperWidth options >? paperHeight options)%num
                 (paperWidth options, paperHeight options)) ;;
    for_loop fuel 0 (gridRows L) (fun r =>
      for_loop fuel 0 (gridCols L) (fun c =>
        processTile options L r c)) ;;
    emit Output ;;
    ret {| tiles := totalTiles L; rows := gridRows L; cols := gridCols L |}.

End Composer.

Definition initial : state := {| log := []; processedCount := 0 |}.

(** How often [pdf.addPage] was called *)
Definition addPage_calls (l : list event) : nat :=
  List.length (filter (fun e => match e with AddPage _ => true | _ => false end) l).


(** ** The specification's dimension resolution

    The fallback chain as the specification words it, one axis at a time:
    the declared attribute if it resolves to a usable value, else the viewBox
    extent of that axis times the pixel factor, else the default. *)

Definition usable (x : option num) : option num :=
  match x with
  | Some v => if truthy v then Some v else None
  | None => None
  end.

(** The extent of an axis in the viewBox attribute (index 2 is the width,
    3 the height), available when the attribute holds four items. *)
Definition viewBox_extent (svg : SVGElement) (index : nat) : option num :=
  match attr_viewBox svg with
  | Some vb =>
      let parts := parseViewBox vb in
      if (List.length parts =? 4)%nat then nth_error parts index else None
  | None => None
  end.

Definition resolve_axis (attribute : option string) (extent : option num) (default : num) : num :=
  match usable (parseUnit attribute) with
  | Some mm => mm
  | None =>
      match usable (option_map (fun e => e * PX_TO_MM)%num extent) with
      | Some mm => mm
      | None => default
      end
  end.

(** A finite value in lowest terms; every operation yields such values. *)
Definition canonical (a : num) : Prop :=
  match a with
  | Fin q => Qred q = q
  | _ => True
  end.

(** ** The specification's unit table *)

Definition unit_table : list (string * num) :=
  [ ("mm", lit 1); ("cm", lit 10); ("in", lit 25.4);
    ("pt", (lit 25.4 / lit 72)%num); ("pc", (lit 25.4 / lit 6)%num) ].

(** The last two characters of a string (the empty string if it is shorter) *)
Fixpoint last2 (s : string) : string :=
  match s with
  | String _ (String _ EmptyString) => s
  | String _ s' => last2 s'
  | EmptyString => EmptyString
  end.

(** The factor of the unit a length ends with; the pixel factor without one *)
Definition unit_factor (s : string) : num :=
  match find (fun entry => String.eqb (fst entry) (last2 s)) unit_table with
  | Some (_, factor) => factor
  | None => PX_TO_MM
  end.

(** A decimal integer literal, from its digits *)
Definition digit_char (d : nat) : ascii := ascii_of_nat (48 + d).

Fixpoint numeral (ds : list nat) : string :=
  match ds with
  | [] => EmptyString
  | d :: ds' => String (digit_char d) (numeral ds')
  end.

Fixpoint numeral_value (acc : Z) (ds : list nat) : Z :=
  match ds with
  | [] => acc
  | d :: ds' => numeral_value (10 * acc + Z.of_nat d) ds'
  end.

(** What may follow an integer literal without becoming part of the number:
    the end of the string, or a character that is not a digit, a decimal
    point nor an exponent mark. *)
Definition ends_number (rest : string) : bool :=
  match rest with
  | EmptyString => true
  | String c _ =>
      match digit c with
      | Some _ => false
      | None => negb (Ascii.eqb c "." || Ascii.eqb c "e" || Ascii.eqb c "E")
      end
  end.

(** Whether a (lower-case) length ends with one of the units of the table *)
Definition recognized (s : string) : bool :=
  existsb (fun entry => String.eqb (fst entry) (last2 s)) unit_table.

(** ** The expected run

    What a run over a grid of [R] rows and [C] columns is expected to do when
    every rendering succeeds, tile by tile in row-major order. *)

(** [round(100 * k / total)], halves rounded up *)
Definition percent (k total : nat) : Z :=
  Qfloor (inject_Z (100 * Z.of_nat k) / inject_Z (Z.of_nat total) + (1 # 2)).

Definition progress_message (r c : nat) : string :=
  "Generating Tile " ++ show (r + 1) ++ "-" ++ show (c + 1) ++ "...".

Definition tile_target (options : PatternSplitterOptions) (L : Layout) : Rect :=
  {| rx := margin options; ry := margin options;
     rwidth := usableW L; rheight := usableH L |}.

Definition tile_annotation (L : Layout) (r c : nat) : event :=
  Annotate ("Top | Tile: " ++ show (r + 1) ++ "-" ++ show (c + 1))
    [ (c <? gridCols L - lit 1)%num; (c >? lit 0)%num;
      (r <? gridRows L - lit 1)%num; (r >? lit 0)%num ]
    (getTileBorderInstructions r c (gridRows L) (gridCols L)).

(** The events of tile [(r, c)], the [r * C + c + 1]-th of [R * C] *)
Definition tile_block (options : PatternSplitterOptions) (L : Layout)
  (R C r c : nat) : list event :=
  (if (r =? 0)%nat && (c =? 0)%nat then []
   else [AddPage (paperWidth options, paperHeight options)]) ++
  (if onProgress options
   then [Progress (JS.of_Z (percent (r * C + c + 1) (R * C))) (progress_message r c)]
   else []) ++
  [Render (tileViewBox L r c) (tile_target options L); tile_annotation L r c].

Definition expected_log (options : PatternSplitterOptions) (R C : nat) : list event :=
  let L := layout options in
  [Import; ParseSvg;
   NewPdf (paperWidth options >? paperHeight options)%num
          (paperWidth options, paperHeight options)] ++
  flat_map (fun r => flat_map (tile_block options L R C r) (seq 0 C)) (seq 0 R) ++
  [Output].

(** How often the progress callback was called *)
Definition progress_calls (l : list event) : nat :=
  List.length (filter (fun e => match e with Progress _ _ => true | _ => false end) l).

(** Every call of the callback is directly followed by a rendering request,
    and every rendering request directly follows a call of the callback. *)
Fixpoint progress_precedes_render (l : list event) : bool :=
  match l with
  | [] => true
  | Progress _ _ :: l' =>
      match l' with
      | Render _ _ :: l'' => progress_precedes_render l''
      | _ => false
      end
  | Render _ _ :: _ => false
  | _ :: l' => progress_precedes_render l'
  end.

(** No character of the string is a capital I (none is, after
    [toLowerCase]), so the string cannot hold the word Infinity. *)
Fixpoint no_capital_I (s : string) : bool :=
  match s with
  | EmptyString => true
  | String c s' => negb (Ascii.eqb c "I") && no_capital_I s'
  end.

(** A point of the native coordinate plane in a rectangle, borders included,
    and strictly within it. *)
Definition inside (x y : Q) (t : Rect) : Prop :=
  match rx t, ry t, rwidth t, rheight t with
  | Fin a, Fin b, Fin wd, Fin ht => (a <= x <= a + wd) /\ (b <= y <= b + ht)
  | _, _, _, _ => False
  end.

Definition strictly_inside (x y : Q) (t : Rect) : Prop :=
  match rx t, ry t, rwidth t, rheight t with
  | Fin a, Fin b, Fin wd, Fin ht => (a < x < a + wd) /\ (b < y < b + ht)
  | _, _, _, _ => False
  end.

(** The viewBoxes the renderer was asked for, in order *)
Definition render_sources (l : list event) : list Rect :=
  flat_map (fun e => match e with Render source _ => [source] | _ => [] end) l.

(** ** Sample inputs *)

(** The 400 mm x 400 mm document of the test suite on A4 paper, margin 10 mm *)
Definition svg400 : SVGElement :=
  mkSvg (Some "400mm") (Some "400mm") (Some "0 0 400 400").

Definition a4_margin10 (svg : SVGElement) : PatternSplitterOptions :=
  {| svgRoot := svg; paperWidth := lit 210; paperHeight := lit 297;
     margin := lit 10; onProgress := true |}.

(** Paper narrower than twice the margin: the usable width is -5 *)
Definition narrow_paper : PatternSplitterOptions :=
  {| svgRoot := svg400; paperWidth := lit 15; paperHeight := lit 297;
     margin := lit 10; onProgress := true |}.

(** Paper exactly as wide as the two margins: the usable width is 0 *)
Definition margins_meet : PatternSplitterOptions :=
  {| svgRoot := svg400; paperWidth := lit 20; paperHeight := lit 297;
     margin := lit 10; onProgress := true |}.

(** Two documents without a viewBox that differ only in the declared height *)
Definition tall_no_viewBox : SVGElement := mkSvg (Some "100mm") (Some "400mm") None.
Definition square_no_viewBox : SVGElement := mkSvg (Some "100mm") (Some "100mm") None.

(** A renderer that never fails *)
Definition always_renders (source target : Rect) : bool := true.

(** A computation that never throws the validation error and only adds to
    the log. *)
Definition proceeds {A : Type} (m : M A) : Prop :=
  forall st,
    (forall message, fst (m st) <> Thrown (Error message)) /\
    exists l, log (snd (m st)) = (log st ++ l)%list.

(** ** Edge instructions of a whole grid *)

Definition instr_eqb (a b : BorderInstruction) : bool :=
  match a, b with
  | glue, glue | cut, cut | none, none => true
  | _, _ => false
  end.

Definition edges (b : TileBorderInstructions) : list BorderInstruction :=
  [top b; right b; bottom b; left b].

(** How many edges of a tile carry the instruction [i] *)
Definition instr_count (i : BorderInstruction) (b : TileBorderInstructions) : nat :=
  List.length (filter (instr_eqb i) (edges b)).

(** How many labels of kind [i] a run has drawn: one for every edge of every
    annotated tile that carries [i] (the four [if (borderInstr.x !== 'none')]
    at the end of the loop body). *)
Fixpoint labels_drawn (i : BorderInstruction) (l : list event) : nat :=
  match l with
  | [] => O
  | Annotate _ _ b :: l' => (instr_count i b + labels_drawn i l')%nat
  | _ :: l' => labels_drawn i l'
  end.

(** The edges of a tile that carry an instruction, in the order the diamond
    marks are decided: right, left, bottom, top. *)
Definition instructed (b : TileBorderInstructions) : list bool :=
  [ negb (instr_eqb (right b) none); negb (instr_eqb (left b) none);
    negb (instr_eqb (bottom b) none); negb (instr_eqb (top b) none) ].

(** Every annotation of the log draws its diamonds on the instructed edges *)
Definition diamonds_match_instructions (l : list event) : Prop :=
  Forall (fun e => match e with
                   | Annotate _ diamonds b => diamonds = instructed b
                   | _ => True
                   end) l.

(** ** More about lengths *)

(** What may follow the fraction digits of a decimal literal without becoming
    part of the number: the end of the string, or a character that is not a
    digit nor an exponent mark. *)
Definition ends_fraction (rest : string) : bool :=
  match rest with
  | EmptyString => true
  | String c _ =>
      match digit c with
      | Some _ => false
      | None => negb (Ascii.eqb c "e" || Ascii.eqb c "E")
      end
  end.

(** The value of the decimal literal [ip.fp], from the digits of its integer
    and fraction parts *)
Definition decimal_value (ip fp : list nat) : Q :=
  inject_Z (numeral_value 0 ip) +
  inject_Z (numeral_value 0 fp) / inject_Z (10 ^ Z.of_nat (List.length fp)).

(** A character no unit of the table ends with (they end with m, n, t or c) *)
Definition ends_no_unit (c : ascii) : bool :=
  negb (Ascii.eqb (lower c) "m" || Ascii.eqb (lower c) "n" ||
        Ascii.eqb (lower c) "t" || Ascii.eqb (lower c) "c")%char.

(** A signed decimal literal with a fraction, from its digits *)
Definition decimal (negative : bool) (ip fp : list nat) : string :=
  (if negative then "-" else "") ++ numeral ip ++ "." ++ numeral fp.

Definition signed (negative : bool) (q : Q) : Q := if negative then - q else q.

(** ** Shapes of a run *)

(** An event of a run that is going well: any event but the final [Output],
    a rendering only if the renderer resolved it. *)
Definition went_well (svg2pdfFn : Rect -> Rect -> bool) (e : event) : Prop :=
  match e with
  | Render source target => svg2pdfFn source target = true
  | Output => False
  | _ => True
  end.

(** A computation that throws only when the renderer rejects a request, and
    then right after logging that request. *)
Definition stops_at_rejection (svg2pdfFn : Rect -> Rect -> bool) {A : Type} (m : M A) : Prop :=
  forall st,
    match m st with
    | (Thrown e, st') =>
        e = RenderRejected /\
        exists l source target,
          log st' = (log st ++ l ++ [Render source target])%list /\
          svg2pdfFn source target = false /\ Forall (went_well svg2pdfFn) l
    | (_, st') =>
        exists l, log st' = (log st ++ l)%list /\ Forall (went_well svg2pdfFn) l
    end.

(** A computation that logs only events with the property [P] *)
Definition emits_only (P : event -> Prop) {A : Type} (m : M A) : Prop :=
  forall st, exists l, log (snd (m st)) = (log st ++ l)%list /\ Forall P l.

(** What every event of a run has to do with its options: pages have the
    paper's format, renderings go to the content box, and progress is
    reported only to a callback. *)
Definition fits_options (options : PatternSplitterOptions) (e : event) : Prop :=
  match e with
  | NewPdf landscape format =>
      format = (paperWidth options, paperHeight options) /\
      landscape = (paperWidth options >? paperHeight options)%num
  | AddPage format => format = (paperWidth options, paperHeight options)
  | Render _ target => target = tile_target options (layout options)
  | Progress _ _ => onProgress options = true
  | _ => True
  end.

(** A whole run: it returns after logging [Output] as its last event, or
    stops at a rejected rendering, or is out of fuel while going well. *)
Definition finishes_with_output (svg2pdfFn : Rect -> Rect -> bool) {A : Type} (m : M A) : Prop :=
  forall st,
    match m st with
    | (Returned _, st') =>
        exists l, log st' = (log st ++ l ++ [Output])%list /\
                  Forall (went_well svg2pdfFn) l
    | (Thrown e, st') =>
        e = RenderRejected /\
        exists l source target,
          log st' = (log st ++ l ++ [Render source target])%list /\
          svg2pdfFn source target = false /\ Forall (went_well svg2pdfFn) l
    | (OutOfFuel, st') =>
        exists l, log st' = (log st ++ l)%list /\ Forall (went_well svg2pdfFn) l
    end.

(** A renderer that fails on every tile but those of the first column *)
Definition first_column_only (source target : Rect) : bool :=
  (rx source === lit 0)%num.

(** The percentages a run reported, in order *)
Definition progress_values (l : list event) : list num :=
  flat_map (fun e => match e with Progress pct _ => [pct] | _ => [] end) l.

(** ** Writing a viewBox *)

(** A separator of viewBox items: white space or a comma *)
Definition isSeparator (c : ascii) : bool := isWhiteSpace c || Ascii.eqb c ",".

Fixpoint all_separators (s : string) : bool :=
  match s with
  | EmptyString => true
  | String c s' => isSeparator c && all_separators s'
  end.

(** Integer items, each followed by a run of separators *)
Fixpoint separated (items : list (list nat * string)) : string :=
  match items with
  | [] => EmptyString
  | (ds, sep) :: items' => numeral ds ++ sep ++ separated items'
  end.

(** An item is a non-empty sequence of digits followed by at least one
    separator and nothing but separators. *)
Definition well_separated (item : list nat * string) : Prop :=
  fst item <> [] /\ Forall (fun d => d < 10)%nat (fst item) /\
  nonempty (snd item) = true /\ all_separators (snd item) = true.

(** ** The marks drawn on a tile

    The drawing calls of the loop body that carry coordinates, as the list of
    shapes they put on the page; the calls that only set colour, line width,
    dash pattern, font size or graphics state are left out, and so are the
    cut and glue labels with their icons (their placement goes through
    [Math.cos] and [Math.sin]). *)

Inductive shape : Type :=
| Rectangle (x y width height : num)       (* pdf.rect *)
| Line (x1 y1 x2 y2 : num)                 (* pdf.line *)
| Path (points : list (num * num))         (* moveTo, lineTo ..., close, fillStroke *)
| Text (text : string) (x y : num)         (* pdf.text *)
| RotatedText (text : string) (x y angle : num).

Definition cInner : num := lit 2.
Definition cOuter : num := lit 5.

Definition drawCornerMark (cx cy : num) (isLeft isTop : bool) : list shape :=
  let xStart := if isLeft then (cx - cOuter)%num else (cx - cInner)%num in
  let xEnd := if isLeft then (cx + cInner)%num else (cx + cOuter)%num in
  let yStart := if isTop then (cy - cOuter)%num else (cy - cInner)%num in
  let yEnd := if isTop then (cy + cInner)%num else (cy + cOuter)%num in
  [Line xStart cy xEnd cy; Line cx yStart cx yEnd].

(** Top-right, bottom-right and bottom-left; the top-left corner is left to
    the ruler. *)
Definition cornerMarks (margin usableW usableH : num) : list shape :=
  (drawCornerMark (margin + usableW) margin false true ++
   drawCornerMark (margin + usableW) (margin + usableH) false false ++
   drawCornerMark margin (margin + usableH) true false)%list.

Definition verifyLen : num := lit 50.
Definition rulerOffset : num := lit 2.

Definition scaleRuler (margin : num) : list shape :=
  let startX := margin in
  let startY := (margin - rulerOffset)%num in
  let vLineStartY := (startY + rulerOffset)%num in
  let vLineStartX := (startX - rulerOffset)%num in
  [ Line startX startY (startX + verifyLen) startY;
    Line startX (startY - lit 1.5) startX (startY + lit 1.5);
    Line (startX + verifyLen) (startY - lit 1.5) (startX + verifyLen) (startY + lit 1.5);
    Line vLineStartX vLineStartY vLineStartX (vLineStartY + verifyLen);
    Line (vLineStartX - lit 1.5) vLineStartY (vLineStartX + lit 1.5) vLineStartY;
    Line (vLineStartX - lit 1.5) (vLineStartY + verifyLen)
         (vLineStartX + lit 1.5) (vLineStartY + verifyLen);
    Text "5cm" (startX + verifyLen + lit 1) (startY + lit 0.5);
    RotatedText "5cm" (vLineStartX + lit 0.5) (vLineStartY + verifyLen + lit 5) (lit 90) ]%num.

Definition markRadius : num := lit 2.5.

Definition drawDiamond (centerX centerY : num) : list shape :=
  [ Path [ (centerX, centerY - markRadius); (centerX + markRadius, centerY);
           (centerX, centerY + markRadius); (centerX - markRadius, centerY) ];
    Line (centerX - markRadius) centerY (centerX + markRadius) centerY;
    Line centerX (centerY - markRadius) centerX (centerY + markRadius) ]%num.

Definition diamondMarks (margin usableW usableH : num) (r c : nat) (rows cols : num)
  : list shape :=
  let midH := (margin + usableH / lit 2)%num in
  let midW := (margin + usableW / lit 2)%num in
  ((if (c <? cols - lit 1)%num then drawDiamond (margin + usableW) midH else []) ++
   (if (c >? lit 0)%num then drawDiamond margin midH else []) ++
   (if (r <? rows - lit 1)%num then drawDiamond midW (margin + usableH) else []) ++
   (if (r >? lit 0)%num then drawDiamond midW margin else []))%list.

(** The points a shape is made of (for a rectangle its four corners, for a
    text its anchor) *)
Definition points (s : shape) : list (num * num) :=
  match s with
  | Rectangle x y width height =>
      [(x, y); (x + width, y); (x + width, y + height); (x, y + height)]%num
  | Line x1 y1 x2 y2 => [(x1, y1); (x2, y2)]
  | Path ps => ps
  | Text _ x y => [(x, y)]
  | RotatedText _ x y _ => [(x, y)]
  end.

(** A point on a page of [pw] x [ph] millimeters *)
Definition on_page (pw ph : Q) (p : num * num) : Prop :=
  match p with
  | (Fin x, Fin y) => (0 <= x <= pw) /\ (0 <= y <= ph)
  | _ => False
  end.

(** Where a point of the page of tile [(r, c)] lies in the assembled pattern,
    in millimeters from its top-left corner: the tile shows the document from
    [c * usableW], [r * usableH] on, placed at ([margin], [margin]). *)
Definition assembled (margin usableW usableH : num) (r c : nat) (p : num * num)
  : num * num :=
  (c * usableW + (fst p - margin), r * usableH + (snd p - margin))%num.

Definition all_on_page (pw ph : Q) (l : list shape) : Prop :=
  Forall (fun s => Forall (on_page pw ph) (points s)) l.

(** Where the points of a shape drawn on tile [(r, c)] lie in the assembled
    pattern *)
Definition assembled_points (margin usableW usableH : num) (r c : nat) (l : list shape)
  : list (list (num * num)) :=
  map (fun s => map (assembled margin usableW usableH r c) (points s)) l.

(** A point outside the content box that starts at ([m], [m]): in the top or
    the left margin band *)
Definition in_margin (m : Q) (p : num * num) : Prop :=
  match p with
  | (Fin x, Fin y) => x < m \/ y < m
  | _ => False
  end.

(** The length of a horizontal or vertical line *)
Definition span (s : shape) : option (num * num) :=
  match s with
  | Line x1 y1 x2 y2 => Some (x2 - x1, y2 - y1)%num
  | _ => None
  end.

(** ** The page: preview and export (main.ts) *)

(** [a <= b] *)
Definition le (a b : num) : bool :=
  match a, b with
  | NaN, _ | _, NaN => false
  | Inf s, Inf t => s || negb t
  | Inf s, Fin _ => s
  | Fin _, Inf t => negb t
  | Fin x, Fin y => if Qlt_le_dec y x then false else true
  end.

Notation "a <=? b" := (le a b) : num_scope.

(** A counting loop [for (let i = ..; i < bound; i++)] whose body appends
    elements to a container; [None] when the fuel does not suffice. *)
Fixpoint for_each {A : Type} (fuel : nat) (i : nat) (bound : num)
    (body : nat -> option (list A)) : option (list A) :=
  if (JS.of_nat i <? bound)%num then
    match fuel with
    | O => None
    | S fuel' =>
        match body i with
        | Some xs => option_map (app xs) (for_each fuel' (S i) bound body)
        | None => None
        end
    end
  else Some [].

Module Main.

(** The text of a file: whether it is the empty string, and the root element
    of the document it parses to *)
Record FileText : Type := mkFileText {
  isEmpty : bool;
  documentElement : SVGElement
}.

(** The module variables that the preview and the export read *)
Record App : Type := mkApp {
  currentSvgText : option FileText;
  currentSvgElement : option SVGElement;
  svgWidthMM : num;
  svgHeightMM : num
}.

Definition start : App :=
  {| currentSvgText := None; currentSvgElement := None;
     svgWidthMM := lit 0; svgHeightMM := lit 0 |}.

(** The text of [els.stats] *)
Inductive Stats : Type :=
  | Prompt                                        (* "Load an SVG to see stats." *)
  | MarginsError                                  (* "Error: Margins larger than paper!" *)
  | RealSize (width height tiles rows cols : num).
      (* "Real Size: <width>mm x <height>mm. Creates <tiles> tiles (<rows> rows x <cols> cols)." *)

(** A [div.grid-box] of the overlay: position and size in percent of the
    picture, and the text of its label *)
Record Box : Type := mkBox {
  left : num;
  top : num;
  width : num;
  height : num;
  label : string
}.

(** The elements of [els] that the preview reads and writes *)
Record Page : Type := mkPage {
  els_paperW : string;
  els_paperH : string;
  els_margin : string;
  els_stats : Stats;
  els_grid : list Box
}.

Definition parseUnit (val : option string) : option num :=
  match val with
  | None => None
  | Some v =>
      if negb (nonempty v) then None
      else
        let val := toLowerCase v in
        let num := parseFloat val in
        if endsWith val "mm" then Some num
        else if endsWith val "cm" then Some (num * lit 10)%num
        else if endsWith val "in" then Some (num * lit 25.4)%num
        else if endsWith val "pt" then Some (num * (lit 25.4 / lit 72))%num
        else if endsWith val "pc" then Some (num * (lit 25.4 / lit 6))%num
        else Some (num * PX_TO_MM)%num
  end.

Definition getSvgDimensionsInMM (svg : SVGElement) : Size :=
  let w := attr_width svg in
  let h := attr_height svg in
  let viewBox := attr_viewBox svg in
  let widthMM := parseUnit w in
  let heightMM := parseUnit h in
  let '(widthMM, heightMM) :=
    match viewBox with
    | Some vb =>
        if (negb (truthy_opt widthMM) || negb (truthy_opt heightMM)) && nonempty vb then
          let parts := parseViewBox vb in
          if (List.length parts =? 4)%nat then
            (Some (or_else widthMM (at_index parts 2 * PX_TO_MM)%num),
             Some (or_else heightMM (at_index parts 3 * PX_TO_MM)%num))
          else (widthMM, heightMM)
        else (widthMM, heightMM)
    | None => (widthMM, heightMM)
    end in
  {| w := or_else widthMM (lit 210); h := or_else heightMM (lit 297) |}.

Definition updateGridPreview (fuel : nat) (app : App) (els : Page) : option Page :=
  match currentSvgElement app with
  | None => Some els
  | Some _ =>
      let pW := parseFloat (els_paperW els) in
      let pH := parseFloat (els_paperH els) in
      let m := parseFloat (els_margin els) in
      if (pW <=? lit 0)%num || (pH <=? lit 0)%num then Some els
      else
        let usableW := (pW - lit 2 * m)%num in
        let usableH := (pH - lit 2 * m)%num in
        if (usableW <=? lit 0)%num || (usableH <=? lit 0)%num then
          Some {| els_paperW := els_paperW els; els_paperH := els_paperH els;
                  els_margin := els_margin els;
                  els_stats := MarginsError; els_grid := els_grid els |}
        else
          let cols := JS.ceil (svgWidthMM app / usableW) in
          let rows := JS.ceil (svgHeightMM app / usableH) in
          let stats :=
            RealSize (JS.round (svgWidthMM app)) (JS.round (svgHeightMM app))
                     (cols * rows)%num rows cols in
          let tilePctW := (usableW / svgWidthMM app * lit 100)%num in
          let tilePctH := (usableH / svgHeightMM app * lit 100)%num in
          match
            for_each fuel 0 rows (fun r =>
              for_each fuel 0 cols (fun c =>
                Some [ {| left := (c * tilePctW)%num; top := (r * tilePctH)%num;
                          width := tilePctW; height := tilePctH;
                          label := show (r + 1) ++ "-" ++ show (c + 1) |} ]))
          with
          | Some boxes =>
              Some {| els_paperW := els_paperW els; els_paperH := els_paperH els;
                      els_margin := els_margin els;
                      els_stats := stats; els_grid := boxes |}
          | None => None
          end
  end.

(** [handleFileUpload] on the file chosen, given by its text; the sizing of
    the preview wrapper is left out. *)
Definition handleFileUpload (fuel : nat) (file : option FileText) (app : App) (els : Page)
  : option (App * Page) :=
  match file with
  | None => Some (app, els)
  | Some text =>
      let svgElement := documentElement text in
      let size := getSvgDimensionsInMM svgElement in
      let width := w size in
      let viewBox :=
        match attr_viewBox svgElement with
        | None => [lit 0; lit 0; (w size / PX_TO_MM)%num; (h size / PX_TO_MM)%num]
        | Some vb => parseViewBox vb
        end in
      let vbW := at_index viewBox 2 in
      let vbH := at_index viewBox 3 in
      let vbAspect := (vbW / vbH)%num in
      let app' :=
        {| currentSvgText := Some text; currentSvgElement := Some svgElement;
           svgWidthMM := width; svgHeightMM := (width / vbAspect)%num |} in
      option_map (pair app') (updateGridPreview fuel app' els)
  end.

(** How a click on the export button ends *)
Inductive Export : Type :=
  | Ignored                                       (* no file, or an empty one *)
  | Download (result : PatternSplitterResult)
  | Alert (err : error)
  | Pending.                                      (* still generating *)

Definition generatePDF (svg2pdfFn : Rect -> Rect -> bool) (fuel : nat) (app : App) (els : Page)
  : Export * list event :=
  match currentSvgText app with
  | None => (Ignored, [])
  | Some text =>
      if isEmpty text then (Ignored, [])
      else
        let pW := parseFloat (els_paperW els) in
        let pH := parseFloat (els_paperH els) in
        let m := parseFloat (els_margin els) in
        let options := mkOptions (documentElement text) pW pH m true in
        match generateTiledPDF svg2pdfFn fuel options initial with
        | (Returned result, st) => (Download result, log st)
        | (Thrown err, st) => (Alert err, log st)
        | (OutOfFuel, st) => (Pending, log st)
        end
  end.

End Main.

(** The labels printed on the pages of a run, in order *)
Fixpoint page_labels (l : list event) : list string :=
  match l with
  | [] => []
  | Annotate label _ _ :: l' => label :: page_labels l'
  | _ :: l' => page_labels l'
  end.

(** The label printed on the page of a previewed box *)
Definition printed (b : Main.Box) : string := "Top | Tile: " ++ Main.label b.

(** A step of the preview and a step of the export end alike: both run out
    of fuel, or the preview gives boxes and the export returns having logged
    events that print the labels of these boxes in the same order. *)
Definition mirrors (boxes : option (list Main.Box)) (m : M unit) : Prop :=
  forall st,
    match boxes, m st with
    | Some bs, (Returned _, st') =>
        exists l, log st' = (log st ++ l)%list /\ map printed bs = page_labels l
    | None, (OutOfFuel, _) => True
    | _, _ => False
    end.

(** The box of tile [(r, c)] in a preview with boxes of [pctW] x [pctH]
    percent *)
Definition preview_box (pctW pctH : num) (r c : nat) : Main.Box :=
  {| Main.left := (c * pctW)%num; Main.top := (r * pctH)%num;
     Main.width := pctW; Main.height := pctH;
     Main.label := show (r + 1) ++ "-" ++ show (c + 1) |}.

(** * Properties *)

(** ** Arithmetic of [num] *)

Module NumFacts.

Lemma Qred_inject_Z (z : Z) : Qred (inject_Z z) = inject_Z z.
Proof.
  apply Qred_identity. simpl. apply Z.gcd_1_r.
Qed.

Lemma fin_eq (q r : Q) : q == r -> JS.fin q = JS.fin r.
Proof.
  intros E. unfold JS.fin. f_equal. now apply Qred_complete.
Qed.

Lemma fin_Z (q : Q) (z : Z) : q == inject_Z z -> JS.fin q = JS.of_Z z.
Proof.
  intros E. unfold JS.fin, JS.of_Z. f_equal.
  rewrite <- (Qred_inject_Z z). now apply Qred_complete.
Qed.

Lemma sub_Z (a b : Z) : (JS.of_Z a - JS.of_Z b)%num = JS.of_Z (a - b).
Proof.
  unfold JS.sub, JS.neg, JS.of_Z, JS.add, JS.fin. f_equal.
  rewrite <- (Qred_inject_Z (a - b)). apply Qred_complete.
  rewrite Qred_correct. unfold Z.sub. rewrite inject_Z_plus, inject_Z_opp. reflexivity.
Qed.

Lemma eqb_Z (a b : Z) : (JS.of_Z a === JS.of_Z b)%num = (a =? b)%Z.
Proof.
  unfold JS.eqb, JS.of_Z, Qeq_bool, inject_Z. simpl.
  now rewrite !Z.mul_1_r.
Qed.

End NumFacts.

(** ** Border instructions *)

(** C2.  The instructions of a tile depend only on whether it lies in the
    first or last row and column: top and left are cut except in row 0 and
    column 0, right and bottom are glue except in the last column and row;
    the only tile of a 1x1 grid has no instruction on any edge. *)
Theorem border_instructions_rule :
  (forall row col totalRows totalCols : Z,
     getTileBorderInstructions
       (JS.of_Z row) (JS.of_Z col) (JS.of_Z totalRows) (JS.of_Z totalCols) =
     {| top := if (row =? 0)%Z then none else cut;
        right := if (col =? totalCols - 1)%Z then none else glue;
        bottom := if (row =? totalRows - 1)%Z then none else glue;
        left := if (col =? 0)%Z then none else cut |}) /\
  getTileBorderInstructions (lit 0) (lit 0) (lit 1) (lit 1) =
    {| top := none; right := none; bottom := none; left := none |}.
Proof.
  split; [| reflexivity].
  intros row col totalRows totalCols. unfold getTileBorderInstructions.
  change (lit 0) with (JS.of_Z 0). change (lit 1) with (JS.of_Z 1).
  now rewrite !NumFacts.sub_Z, !NumFacts.eqb_Z.
Qed.

(** ** Dimension resolution *)

Lemma or_else_usable (x : option num) (d : num) :
  or_else x d = match usable x with Some v => v | None => d end.
Proof.
  destruct x as [v|]; simpl; [destruct (truthy v)|]; reflexivity.
Qed.

Lemma truthy_opt_usable (x : option num) :
  truthy_opt x = match usable x with Some _ => true | None => false end.
Proof.
  destruct x as [v|]; simpl; [destruct (truthy v)|]; reflexivity.
Qed.

Lemma usable_truthy (x : option num) (v : num) :
  usable x = Some v -> truthy v = true.
Proof.
  destruct x as [u|]; simpl; [|discriminate].
  destruct (truthy u) eqn:T; [|discriminate]. now intros [= <-].
Qed.

Lemma getSvgDimensionsInMM_chain (svg : SVGElement) :
  getSvgDimensionsInMM svg =
  {| w := resolve_axis (attr_width svg) (viewBox_extent svg 2) (lit 210);
     h := resolve_axis (attr_height svg) (viewBox_extent svg 3) (lit 297) |}.
Proof.
  destruct svg as [wd ht vb]. unfold getSvgDimensionsInMM, resolve_axis, viewBox_extent.
  cbn [attr_width attr_height attr_viewBox].
  rewrite !truthy_opt_usable.
  destruct vb as [vb|].
  - destruct (List.length (parseViewBox vb) =? 4)%nat eqn:Len.
    + apply Nat.eqb_eq in Len.
      destruct (parseViewBox vb) as [|p0 [|p1 [|p2 [|p3 [|p4 ps]]]]] eqn:P; try discriminate.
      assert (N : nonempty vb = true).
      { destruct vb; [discriminate P | reflexivity]. }
      rewrite N. cbn [nth_error option_map at_index nth].
      destruct (usable (parseUnit wd)) as [a|] eqn:A;
        destruct (usable (parseUnit ht)) as [b|] eqn:B; cbn [negb orb andb];
        rewrite ?or_else_usable, ?A, ?B; cbn [usable];
        try (pose proof (usable_truthy _ _ A)); try (pose proof (usable_truthy _ _ B));
        repeat match goal with
               | |- context [truthy ?x] => destruct (truthy x) eqn:?
               end; try reflexivity; try congruence.
    + destruct ((_ || _) && _); rewrite !or_else_usable;
        destruct (usable (parseUnit wd)), (usable (parseUnit ht)); reflexivity.
  - rewrite !or_else_usable.
    destruct (usable (parseUnit wd)), (usable (parseUnit ht)); reflexivity.
Qed.

(** C7.  Each axis is resolved by its own chain: the declared attribute when
    it yields a usable value, else the viewBox extent of that axis times
    25.4/96, else 210 (width) or 297 (height).  The width does not depend on
    the height attribute nor the height on the width attribute, and an element
    with no attribute at all resolves to exactly (210, 297). *)
Theorem dimension_resolution_per_axis :
  (forall svg,
     getSvgDimensionsInMM svg =
     {| w := resolve_axis (attr_width svg) (viewBox_extent svg 2) (lit 210);
        h := resolve_axis (attr_height svg) (viewBox_extent svg 3) (lit 297) |}) /\
  (forall wd ht ht' vb,
     w (getSvgDimensionsInMM (mkSvg wd ht vb)) = w (getSvgDimensionsInMM (mkSvg wd ht' vb))) /\
  (forall wd wd' ht vb,
     h (getSvgDimensionsInMM (mkSvg wd ht vb)) = h (getSvgDimensionsInMM (mkSvg wd' ht vb))) /\
  getSvgDimensionsInMM (mkSvg None None None) = {| w := lit 210; h := lit 297 |}.
Proof.
  split; [exact getSvgDimensionsInMM_chain|].
  split; [|split]; [| |reflexivity]; intros; now rewrite !getSvgDimensionsInMM_chain.
Qed.

Lemma truthy_spec (a : num) :
  truthy a = true <-> a <> NaN /\ (forall q, a = Fin q -> ~ q == 0).
Proof.
  destruct a as [|s|q]; simpl.
  - split; [discriminate | intros [N _]; now elim N].
  - split; [|reflexivity]. intros _. split; [discriminate | discriminate].
  - unfold JS.Qzero. rewrite negb_true_iff, Z.eqb_neq.
    split.
    + intros N. split; [discriminate|]. intros q' [= <-] Z0. apply N.
      unfold Qeq in Z0. simpl in Z0. lia.
    + intros [_ N] Z0. apply (N q eq_refl). unfold Qeq. simpl. lia.
Qed.

Lemma resolve_axis_truthy (attribute : option string) (extent : option num) (d : num) :
  truthy d = true -> truthy (resolve_axis attribute extent d) = true.
Proof.
  intros D. unfold resolve_axis.
  destruct (usable (parseUnit attribute)) eqn:A; [now apply usable_truthy in A|].
  destruct (usable (option_map _ extent)) eqn:B; [now apply usable_truthy in B|].
  exact D.
Qed.

(** C10.  Both resolved dimensions are numbers other than 0 and NaN, whatever
    the element declares.  A declared attribute that parses to 0 or NaN, or is
    absent, counts for nothing: the axis takes the viewBox extent times
    25.4/96 when that is usable, and the default 210 or 297 when it is not
    (absent viewBox, not four items, or an extent that gives 0 or NaN). *)
Theorem dimensions_nonzero_not_NaN :
  forall svg,
    let size := getSvgDimensionsInMM svg in
    let fallback index default :=
      match usable (option_map (fun e => e * PX_TO_MM)%num (viewBox_extent svg index)) with
      | Some mm => mm
      | None => default
      end in
    (w size <> NaN /\ (forall q, w size = Fin q -> ~ q == 0)) /\
    (h size <> NaN /\ (forall q, h size = Fin q -> ~ q == 0)) /\
    (truthy_opt (parseUnit (attr_width svg)) = false -> w size = fallback 2%nat (lit 210)) /\
    (truthy_opt (parseUnit (attr_height svg)) = false -> h size = fallback 3%nat (lit 297)).
Proof.
  intros svg size fallback. subst size fallback.
  rewrite getSvgDimensionsInMM_chain. cbn [w h].
  repeat split.
  - apply truthy_spec, resolve_axis_truthy. reflexivity.
  - apply (truthy_spec (resolve_axis _ _ _)), resolve_axis_truthy. reflexivity.
  - apply truthy_spec, resolve_axis_truthy. reflexivity.
  - apply (truthy_spec (resolve_axis _ _ _)), resolve_axis_truthy. reflexivity.
  - rewrite truthy_opt_usable. unfold resolve_axis.
    destruct (usable (parseUnit (attr_width svg))); [discriminate | reflexivity].
  - rewrite truthy_opt_usable. unfold resolve_axis.
    destruct (usable (parseUnit (attr_height svg))); [discriminate | reflexivity].
Qed.

(** width="0mm" and a non-numeric height, over a viewBox whose extents give 0
    and NaN: both axes end at the defaults. *)
Lemma dimensions_nonzero_not_NaN_witness :
  let svg := mkSvg (Some "0mm") (Some "abc") (Some "0 0 0 x") in
  truthy_opt (parseUnit (attr_width svg)) = false /\
  truthy_opt (parseUnit (attr_height svg)) = false /\
  getSvgDimensionsInMM svg = {| w := lit 210; h := lit 297 |}.
Proof.
  intros svg.
  destruct (dimensions_nonzero_not_NaN svg) as (_ & _ & W & H).
  split; [reflexivity|]. split; [reflexivity|].
  specialize (W eq_refl). specialize (H eq_refl).
  destruct (getSvgDimensionsInMM svg) as [sw sh]. cbn [w h] in W, H.
  rewrite W, H. reflexivity.
Defined.

(** ** Unit conversion *)

Lemma canonical_fin (q : Q) : canonical (JS.fin q).
Proof. apply Qred_involutive. Qed.

Lemma canonical_mul (a b : num) : canonical (a * b)%num.
Proof.
  destruct a as [| |x], b as [| |y]; cbn [JS.mul canonical]; auto;
    try (destruct (JS.Qzero _); exact I). apply canonical_fin.
Qed.

Lemma canonical_parseFloat (s : string) : canonical (parseFloat s).
Proof.
  unfold parseFloat.
  destruct (sign (trimStart s)) as [negative s0].
  destruct (startsWith s0 "Infinity"); [exact I|].
  destruct (digits s0 0 0) as [[ip il] s1].
  destruct (fraction s1) as [[fp fl] s2].
  destruct (il + fl)%nat; [exact I | apply canonical_fin].
Qed.

Lemma mul_one (a : num) : canonical a -> (a * lit 1)%num = a.
Proof.
  destruct a as [|s|x]; cbn [JS.mul canonical lit]; auto.
  - intros _. cbn. now destruct s.
  - intros C. unfold lit, JS.fin. f_equal.
    transitivity (Qred x); [|exact C].
    apply Qred_complete. rewrite Qred_correct. ring.
Qed.

Lemma endsWith_last2 (s : string) (a b : ascii) :
  endsWith s (String a (String b EmptyString)) =
  String.eqb (last2 s) (String a (String b EmptyString)).
Proof.
  induction s as [|c s IH]; [reflexivity|].
  destruct s as [|d [|e s]].
  - simpl. now destruct (Ascii.eqb c a).
  - simpl. destruct (Ascii.eqb c a), (Ascii.eqb d b), (Ascii.eqb d a); reflexivity.
  - change (last2 (String c (String d (String e s)))) with (last2 (String d (String e s))).
    rewrite <- IH.
    change (endsWith (String c (String d (String e s))) (String a (String b EmptyString)))
      with (String.eqb (String c (String d (String e s))) (String a (String b EmptyString))
            || endsWith (String d (String e s)) (String a (String b EmptyString))).
    cbn [String.eqb]. now destruct (Ascii.eqb c a), (Ascii.eqb d b).
Qed.

Lemma parseUnit_table (s : string) :
  nonempty s = true ->
  parseUnit (Some s) =
  Some (parseFloat (toLowerCase s) * unit_factor (toLowerCase s))%num.
Proof.
  intros N. unfold parseUnit. rewrite N. cbn [negb].
  unfold unit_factor, unit_table. cbn [find fst].
  rewrite !endsWith_last2.
  destruct (String.eqb (last2 (toLowerCase s)) "mm") eqn:E.
  - apply String.eqb_eq in E. rewrite E. cbn.
    now rewrite mul_one by apply canonical_parseFloat.
  - rewrite (String.eqb_sym "mm"), E.
    rewrite (String.eqb_sym "cm"), (String.eqb_sym "in"),
      (String.eqb_sym "pt"), (String.eqb_sym "pc").
    repeat match goal with
           | |- context [String.eqb ?x ?y] => destruct (String.eqb x y)
           end; reflexivity.
Qed.

Lemma digit_char_cases (P : ascii -> Prop) (d : nat) :
  (d < 10)%nat ->
  P "0"%char -> P "1"%char -> P "2"%char -> P "3"%char -> P "4"%char ->
  P "5"%char -> P "6"%char -> P "7"%char -> P "8"%char -> P "9"%char ->
  P (digit_char d).
Proof.
  intros B. do 10 (destruct d as [|d]; [intros; assumption|]). lia.
Qed.

Lemma digit_digit_char (d : nat) :
  (d < 10)%nat -> digit (digit_char d) = Some (Z.of_nat d).
Proof.
  intros B. do 10 (destruct d as [|d]; [reflexivity|]). lia.
Qed.

Lemma digits_numeral (ds : list nat) (rest : string) :
  Forall (fun d => d < 10)%nat ds ->
  forall acc len,
    digits (numeral ds ++ rest) acc len =
    digits rest (numeral_value acc ds) (len + List.length ds).
Proof.
  induction 1 as [|d ds B _ IH]; intros acc len.
  - simpl. now rewrite Nat.add_0_r.
  - cbn [numeral String.append digits]. rewrite (digit_digit_char d B), IH.
    cbn [numeral_value List.length]. now rewrite Nat.add_succ_r.
Qed.

Lemma digits_ends_number (rest : string) (acc : Z) (len : nat) :
  ends_number rest = true ->
  digits rest acc len = (acc, len, rest) /\ fraction rest = (0%Z, O, rest) /\
  exponent rest = 0%Z.
Proof.
  destruct rest as [|c rest]; [now intros _|].
  unfold ends_number, fraction, exponent. cbn [digits].
  destruct (digit c); [discriminate|].
  rewrite negb_true_iff. intros E.
  apply orb_false_elim in E as [E E3]. apply orb_false_elim in E as [E1 E2].
  now rewrite E1, E2, E3.
Qed.

Lemma parseFloat_numeral (d : nat) (ds : list nat) (rest : string) :
  Forall (fun d => d < 10)%nat (d :: ds) ->
  ends_number rest = true ->
  parseFloat (numeral (d :: ds) ++ rest) = JS.of_Z (numeral_value 0 (d :: ds)).
Proof.
  intros F E. pose proof (digits_numeral (d :: ds) rest F 0%Z O) as D.
  rewrite (proj1 (digits_ends_number rest _ _ E)) in D.
  unfold parseFloat.
  assert (S : sign (trimStart (numeral (d :: ds) ++ rest)) = (false, numeral (d :: ds) ++ rest)).
  { cbn [numeral String.append]. inversion F as [|? ? B _]; subst.
    apply (digit_char_cases
             (fun c => sign (trimStart (String c (numeral ds ++ rest))) =
                       (false, String c (numeral ds ++ rest))) d B); reflexivity. }
  rewrite S.
  assert (I : startsWith (numeral (d :: ds) ++ rest) "Infinity" = false).
  { cbn [numeral String.append]. inversion F as [|? ? B _]; subst.
    apply (digit_char_cases
             (fun c => startsWith (String c (numeral ds ++ rest)) "Infinity" = false) d B);
      reflexivity. }
  rewrite I, D.
  destruct (digits_ends_number rest 0%Z O E) as (_ & Fr & Ex). rewrite Fr, Ex.
  cbn [List.length Nat.add]. apply NumFacts.fin_Z.
  change (inject_Z 0 / inject_Z (10 ^ Z.of_nat 0)) with (0 / 1).
  change (Qpower 10 0) with 1. field.
Qed.

Lemma toLowerCase_numeral (ds : list nat) (rest : string) :
  Forall (fun d => d < 10)%nat ds ->
  toLowerCase (numeral ds ++ rest) = (numeral ds ++ toLowerCase rest)%string.
Proof.
  induction 1 as [|d ds B _ IH]; [reflexivity|].
  cbn [numeral String.append toLowerCase]. rewrite IH. f_equal.
  apply (digit_char_cases (fun c => lower c = c) d B); reflexivity.
Qed.

Lemma last2_append (s : string) (a b : ascii) :
  last2 (s ++ String a (String b EmptyString)) = String a (String b EmptyString).
Proof.
  induction s as [|c s IH]; [reflexivity|].
  cbn [String.append]. destruct s as [|d s]; [reflexivity|].
  destruct s as [|e s]; [reflexivity|].
  exact IH.
Qed.

Lemma unit_factor_unrecognized (s : string) :
  recognized s = false -> unit_factor s = PX_TO_MM.
Proof.
  unfold recognized, unit_factor. intros R.
  destruct (find _ unit_table) as [[u f]|] eqn:F; [|reflexivity].
  apply find_some in F as [I E].
  assert (X : existsb (fun entry => String.eqb (fst entry) (last2 s)) unit_table = true).
  { apply existsb_exists. now exists (u, f). }
  congruence.
Qed.

Lemma recognized_numeral (ds : list nat) :
  Forall (fun d => d < 10)%nat ds -> recognized (numeral ds) = false.
Proof.
  intros F. unfold recognized.
  assert (L : last2 (numeral ds) = EmptyString \/
              exists a rest, (a < 10)%nat /\ last2 (numeral ds) = String (digit_char a) rest).
  { induction F as [|a ds A F IH]; [now left|].
    destruct ds as [|b [|c ds]].
    - now left.
    - right. now exists a, (String (digit_char b) EmptyString).
    - exact IH. }
  destruct L as [-> | (a & rest & A & ->)]; [reflexivity|].
  apply (digit_char_cases
           (fun c => existsb (fun entry => String.eqb (fst entry) (String c rest))
                       unit_table = false) a A); reflexivity.
Qed.

Lemma parseUnit_numeral_unit (d : nat) (ds : list nat) (unit : string) (factor : num) :
  Forall (fun d => d < 10)%nat (d :: ds) ->
  In (toLowerCase unit, factor) unit_table ->
  parseUnit (Some (numeral (d :: ds) ++ unit)) =
  Some (JS.of_Z (numeral_value 0 (d :: ds)) * factor)%num.
Proof.
  intros F I. rewrite parseUnit_table by reflexivity.
  rewrite toLowerCase_numeral by assumption.
  unfold unit_table in I. cbn [In] in I.
  repeat (destruct I as [I|I]; [injection I as <- <-|]); try contradiction;
    (rewrite parseFloat_numeral by (assumption || reflexivity));
    unfold unit_factor; rewrite last2_append; reflexivity.
Qed.

(** C8, as the code has it.  A missing (null or empty) length is null.  Any
    other string is a number: the value [parseFloat] reads at the start of the
    lower-cased string, times the factor of the two-letter unit it ends with
    (mm 1, cm 10, in 25.4, pt 25.4/72, pc 25.4/6), and times 25.4/96 when it
    ends with none of them.  So an integer literal followed by a unit in any
    letter case is the integer times the factor, a bare integer is pixels, and
    a string with no number at its start is NaN (not null, not zero), which
    the caller treats like null. *)
Theorem parseUnit_conversion :
  parseUnit None = None /\ parseUnit (Some "") = None /\
  (forall s, nonempty s = true ->
     parseUnit (Some s) =
     Some (parseFloat (toLowerCase s) * unit_factor (toLowerCase s))%num) /\
  (forall s, nonempty s = true -> recognized (toLowerCase s) = false ->
     parseUnit (Some s) = Some (parseFloat (toLowerCase s) * PX_TO_MM)%num) /\
  (forall d ds unit factor,
     Forall (fun d => d < 10)%nat (d :: ds) ->
     In (toLowerCase unit, factor) unit_table ->
     parseUnit (Some (numeral (d :: ds) ++ unit)) =
     Some (JS.of_Z (numeral_value 0 (d :: ds)) * factor)%num) /\
  (forall d ds,
     Forall (fun d => d < 10)%nat (d :: ds) ->
     parseUnit (Some (numeral (d :: ds))) =
     Some (JS.of_Z (numeral_value 0 (d :: ds)) * PX_TO_MM)%num) /\
  (forall s, nonempty s = true -> parseFloat (toLowerCase s) = NaN ->
     parseUnit (Some s) = Some NaN /\ truthy_opt (parseUnit (Some s)) = false) /\
  parseUnit (Some "10cm") = Some (lit 100) /\
  parseUnit (Some "1in") = Some (lit 25.4) /\
  parseUnit (Some "96") = Some (lit 25.4).
Proof.
  split; [reflexivity|]. split; [reflexivity|].
  split; [exact parseUnit_table|].
  split.
  { intros s N R. now rewrite parseUnit_table, unit_factor_unrecognized. }
  split; [exact parseUnit_numeral_unit|].
  split.
  { intros d ds F. rewrite parseUnit_table by reflexivity.
    pose proof (toLowerCase_numeral (d :: ds) EmptyString F) as L.
    pose proof (parseFloat_numeral d ds EmptyString F eq_refl) as P.
    assert (A : forall x, (x ++ EmptyString)%string = x).
    { induction x as [|c x IH]; [reflexivity|]. cbn. now rewrite IH. }
    cbn [toLowerCase] in L. rewrite !A in L, P. rewrite L, P.
    now rewrite unit_factor_unrecognized by now apply recognized_numeral. }
  split.
  { intros s N P. rewrite parseUnit_table, P by assumption. now split. }
  repeat split; reflexivity.
Qed.

Lemma parseUnit_conversion_witness :
  parseUnit (Some "42Cm") = Some (lit 420) /\
  parseUnit (Some "7") = Some (lit 7 * PX_TO_MM)%num /\
  parseUnit (Some "12px") = Some (lit 12 * PX_TO_MM)%num /\
  parseUnit (Some "abc") = Some NaN.
Proof.
  destruct parseUnit_conversion as (_ & _ & _ & Px & Unit & Bare & Unparsed & _).
  split.
  { apply (Unit 4%nat [2%nat] "Cm" (lit 10)).
    - repeat constructor.
    - right. left. reflexivity. }
  split.
  { apply (Bare 7%nat []). repeat constructor. }
  split.
  { apply (Px "12px"); reflexivity. }
  apply (Unparsed "abc"); reflexivity.
Defined.

(** An unparseable length is not null: a string with no number at its start
    is converted to NaN. *)
Lemma parseUnit_unparseable_not_null :
  parseUnit (Some "abc") = Some NaN /\ parseUnit (Some "abc") <> None.
Proof.
  split; [reflexivity | discriminate].
Qed.

(** ** The tile loop *)

Lemma lt_of_nat (a b : nat) : (JS.of_nat a <? JS.of_nat b)%num = (a <? b)%nat.
Proof.
  unfold JS.lt, JS.of_nat, JS.of_Z.
  destruct (Qlt_le_dec _ _) as [H|H]; symmetry.
  - apply Nat.ltb_lt. rewrite <- Zlt_Qlt in H. lia.
  - apply Nat.ltb_ge. rewrite <- Zle_Qle in H. lia.
Qed.

Lemma gt_zero_of_nat (a : nat) : (JS.of_nat a >? lit 0)%num = negb (a =? 0)%nat.
Proof.
  unfold JS.gt. change (lit 0) with (JS.of_nat 0). rewrite lt_of_nat.
  now destruct a.
Qed.

Lemma mul_of_nat (a b : nat) : (JS.of_nat a * JS.of_nat b)%num = JS.of_nat (a * b).
Proof.
  unfold JS.of_nat, JS.of_Z. cbn [JS.mul]. apply NumFacts.fin_Z.
  now rewrite Nat2Z.inj_mul, inject_Z_mult.
Qed.

Lemma round_percent (k total : nat) :
  (0 < total)%nat ->
  JS.round (JS.of_nat k / JS.of_nat total * lit 100)%num = JS.of_Z (percent k total).
Proof.
  intros T. unfold JS.of_nat at 1 2, JS.of_Z at 1 2. cbn [JS.div].
  assert (Z : JS.Qzero (inject_Z (Z.of_nat total)) = false).
  { unfold JS.Qzero. simpl. apply Z.eqb_neq. lia. }
  rewrite Z. unfold lit, JS.fin. cbn [JS.mul JS.round]. unfold JS.fin. cbn [JS.round].
  unfold percent. f_equal. apply Qfloor_comp.
  rewrite !Qred_correct. rewrite inject_Z_mult.
  assert (N : ~ inject_Z (Z.of_nat total) == 0).
  { intros E. unfold Qeq in E. simpl in E. lia. }
  field. exact N.
Qed.

Section Run.

Variable svg2pdfFn : Rect -> Rect -> bool.
Hypothesis resolves : forall source target, svg2pdfFn source target = true.

Variable options : PatternSplitterOptions.
Variables R C : nat.
Hypothesis grid_rows : gridRows (layout options) = JS.of_nat R.
Hypothesis grid_cols : gridCols (layout options) = JS.of_nat C.

Lemma totalTiles_grid : totalTiles (layout options) = JS.of_nat (R * C).
Proof.
  change (totalTiles (layout options))
    with (gridCols (layout options) * gridRows (layout options))%num.
  now rewrite grid_rows, grid_cols, mul_of_nat, Nat.mul_comm.
Qed.

Lemma guard_rows (r : nat) :
  (JS.of_nat r <? gridRows (layout options))%num = (r <? R)%nat.
Proof. rewrite grid_rows. apply lt_of_nat. Qed.

Lemma guard_cols (c : nat) :
  (JS.of_nat c <? gridCols (layout options))%num = (c <? C)%nat.
Proof. rewrite grid_cols. apply lt_of_nat. Qed.

Lemma processTile_run (r c : nat) (st : state) :
  (r < R)%nat -> (c < C)%nat -> processedCount st = (r * C + c)%nat ->
  processTile svg2pdfFn options (layout options) r c st =
  (Returned tt,
   {| log := log st ++ tile_block options (layout options) R C r c;
      processedCount := S (r * C + c) |}).
Proof.
  intros HR HC HP.
  unfold processTile, tile_block, tile_annotation, tile_target, await_svg2pdf,
    bind, when, incr, emit, ret.
  rewrite !gt_zero_of_nat, <- negb_andb, resolves, totalTiles_grid.
  destruct st as [l n]. cbn [log processedCount] in *. subst n.
  replace (r * C + c + 1)%nat with (S (r * C + c)) by lia.
  destruct ((r =? 0)%nat && (c =? 0)%nat), (onProgress options);
    cbn [negb log processedCount app]; rewrite ?round_percent by nia;
    rewrite <- ?app_assoc; reflexivity.
Qed.

Lemma inner_loop_run (r : nat) (fuel n c : nat) (st : state) :
  (r < R)%nat -> (c + n = C)%nat -> (n <= fuel)%nat ->
  processedCount st = (r * C + c)%nat ->
  for_loop fuel c (gridCols (layout options))
    (fun c => processTile svg2pdfFn options (layout options) r c) st =
  (Returned tt,
   {| log := log st ++ flat_map (tile_block options (layout options) R C r) (seq c n);
      processedCount := (r * C + C)%nat |}).
Proof.
  intros HR. revert fuel c st.
  induction n as [|n IH]; intros fuel c st HC HF HP.
  - destruct fuel; cbn [for_loop]; rewrite guard_cols;
      (replace (c <? C)%nat with false by (symmetry; apply Nat.ltb_ge; lia));
      unfold ret; cbn [seq flat_map]; rewrite app_nil_r;
      destruct st as [l k]; cbn [log processedCount] in *; subst k;
      repeat f_equal; lia.
  - destruct fuel as [|fuel]; [lia|]. cbn [for_loop].
    rewrite guard_cols.
    replace (c <? C)%nat with true by (symmetry; apply Nat.ltb_lt; lia).
    unfold bind at 1. rewrite processTile_run by (assumption || lia).
    rewrite IH by (cbn [processedCount]; lia).
    cbn [log seq flat_map]. now rewrite <- app_assoc.
Qed.

Lemma outer_loop_run (fuel fuel0 n r : nat) (st : state) :
  (C <= fuel)%nat -> (r + n = R)%nat -> (n <= fuel0)%nat ->
  processedCount st = (r * C)%nat ->
  for_loop fuel0 r (gridRows (layout options))
    (fun r => for_loop fuel 0 (gridCols (layout options))
                (fun c => processTile svg2pdfFn options (layout options) r c)) st =
  (Returned tt,
   {| log := log st ++
             flat_map (fun r => flat_map (tile_block options (layout options) R C r) (seq 0 C))
               (seq r n);
      processedCount := (R * C)%nat |}).
Proof.
  intros HC. revert fuel0 r st.
  induction n as [|n IH]; intros fuel0 r st HR HF0 HP.
  - destruct fuel0; cbn [for_loop]; rewrite guard_rows;
      (replace (r <? R)%nat with false by (symmetry; apply Nat.ltb_ge; lia));
      unfold ret; cbn [seq flat_map]; rewrite app_nil_r;
      destruct st as [l k]; cbn [log processedCount] in *; subst k;
      repeat f_equal; lia.
  - destruct fuel0 as [|fuel0]; [lia|]. cbn [for_loop].
    rewrite guard_rows.
    replace (r <? R)%nat with true by (symmetry; apply Nat.ltb_lt; lia).
    unfold bind at 1.
    rewrite (inner_loop_run r fuel C 0 st) by (lia || (rewrite HP; lia)).
    rewrite IH by (cbn [processedCount]; lia).
    cbn [log seq flat_map]. now rewrite <- app_assoc.
Qed.

Lemma generateTiledPDF_run (fuel : nat) :
  (margin options <? lit 10)%num = false ->
  (R <= fuel)%nat -> (C <= fuel)%nat ->
  generateTiledPDF svg2pdfFn fuel options initial =
  (Returned {| tiles := JS.of_nat (R * C); rows := JS.of_nat R; cols := JS.of_nat C |},
   {| log := expected_log options R C; processedCount := (R * C)%nat |}).
Proof.
  intros HM HR HC. unfold generateTiledPDF. rewrite HM.
  unfold bind at 1 2 3. unfold emit at 1 2 3. cbn [log processedCount initial app].
  unfold bind at 1.
  rewrite (outer_loop_run fuel fuel R 0) by (reflexivity || lia).
  unfold bind, emit, ret. cbn [log processedCount].
  rewrite totalTiles_grid, grid_rows, grid_cols.
  unfold expected_log. now rewrite <- app_assoc.
Qed.

End Run.

(** ** Counting pages *)

Lemma addPage_calls_app (l1 l2 : list event) :
  addPage_calls (l1 ++ l2) = (addPage_calls l1 + addPage_calls l2)%nat.
Proof.
  unfold addPage_calls. now rewrite filter_app, length_app.
Qed.

Lemma addPage_calls_tile (options : PatternSplitterOptions) (L : Layout) (R C r c : nat) :
  addPage_calls (tile_block options L R C r c) =
  if (r =? 0)%nat && (c =? 0)%nat then 0%nat else 1%nat.
Proof.
  unfold tile_block.
  destruct ((r =? 0)%nat && (c =? 0)%nat), (onProgress options); reflexivity.
Qed.

Lemma addPage_calls_row (options : PatternSplitterOptions) (L : Layout) (R C r : nat) :
  forall n c,
    addPage_calls (flat_map (tile_block options L R C r) (seq c n)) =
    if (r =? 0)%nat && (c =? 0)%nat then Nat.pred n else n.
Proof.
  induction n as [|n IH]; intros c.
  - now destruct ((r =? 0)%nat && (c =? 0)%nat).
  - cbn [seq flat_map]. rewrite addPage_calls_app, addPage_calls_tile, IH.
    replace (S c =? 0)%nat with false by reflexivity.
    rewrite andb_false_r. now destruct ((r =? 0)%nat && (c =? 0)%nat).
Qed.

Lemma addPage_calls_rows (options : PatternSplitterOptions) (L : Layout) (R C : nat) :
  (0 < C)%nat ->
  forall n r,
    addPage_calls
      (flat_map (fun r => flat_map (tile_block options L R C r) (seq 0 C)) (seq r n)) =
    if (r =? 0)%nat then Nat.pred (n * C) else (n * C)%nat.
Proof.
  intros HC. induction n as [|n IH]; intros r.
  - now destruct (r =? 0)%nat.
  - cbn [seq flat_map]. rewrite addPage_calls_app, addPage_calls_row, IH.
    replace (S r =? 0)%nat with false by reflexivity.
    destruct (r =? 0)%nat; cbn [andb Nat.eqb]; lia.
Qed.

Lemma addPage_calls_expected (options : PatternSplitterOptions) (R C : nat) :
  (0 < C)%nat -> addPage_calls (expected_log options R C) = Nat.pred (R * C).
Proof.
  intros HC. unfold expected_log.
  rewrite !addPage_calls_app, (addPage_calls_rows _ _ _ _ HC R 0). cbn. lia.
Qed.

(** ** The grid *)

Lemma Qzero_false (q : Q) : ~ q == 0 -> JS.Qzero q = false.
Proof.
  intros N. unfold JS.Qzero. apply Z.eqb_neq. intros E. apply N.
  unfold Qeq. simpl. lia.
Qed.

Lemma ceil_div (a b : Q) :
  0 < b -> JS.ceil (Fin a / Fin b)%num = JS.of_Z (Qceiling (a / b)).
Proof.
  intros B. cbn [JS.div]. rewrite Qzero_false by lra.
  unfold JS.fin. cbn [JS.ceil].
  now rewrite (Qceiling_comp _ _ (Qred_correct (a / b))).
Qed.

Lemma ceiling_covers (a b : Q) : 0 < b -> a <= inject_Z (Qceiling (a / b)) * b.
Proof.
  intros B. pose proof (Qle_ceiling (a / b)) as H.
  apply (Qmult_le_compat_r _ _ b) in H; [|lra].
  assert (E : a / b * b == a) by (field; lra).
  now rewrite E in H.
Qed.

Lemma ceiling_positive (a b : Q) : 0 < a -> 0 < b -> (1 <= Qceiling (a / b))%Z.
Proof.
  intros A B. assert (P : 0 < a / b) by (apply Qlt_shift_div_l; lra).
  pose proof (Qle_ceiling (a / b)) as H.
  assert (L : inject_Z 0 < inject_Z (Qceiling (a / b))).
  { eapply Qlt_le_trans; [exact P | exact H]. }
  rewrite <- Zlt_Qlt in L. lia.
Qed.

Lemma of_Z_to_nat (z : Z) : (0 <= z)%Z -> JS.of_Z z = JS.of_nat (Z.to_nat z).
Proof.
  intros P. unfold JS.of_nat. now rewrite Z2Nat.id.
Qed.



(** ** Margin validation *)

Lemma proceeds_ret {A : Type} (a : A) : proceeds (ret a).
Proof.
  intros st. split; [discriminate|]. exists []. cbn. now rewrite app_nil_r.
Qed.

Lemma proceeds_emit (e : event) : proceeds (emit e).
Proof.
  intros st. split; [discriminate|]. now exists [e].
Qed.

Lemma proceeds_incr : proceeds incr.
Proof.
  intros st. split; [discriminate|]. exists []. cbn. now rewrite app_nil_r.
Qed.

Lemma proceeds_bind {A B : Type} (m : M A) (k : A -> M B) :
  proceeds m -> (forall a, proceeds (k a)) -> proceeds (bind m k).
Proof.
  intros Hm Hk st. unfold bind. destruct (Hm st) as [Em [l El]].
  destruct (m st) as [[a|e|] st'] eqn:Run; cbn [fst snd] in *.
  - destruct (Hk a st') as [Ek [l' El']]. split; [exact Ek|].
    exists (l ++ l')%list. now rewrite El', El, app_assoc.
  - split; [|now exists l].
    intros message [= ->]. now apply (Em message).
  - split; [discriminate | now exists l].
Qed.

Lemma proceeds_when (b : bool) (m : M unit) : proceeds m -> proceeds (when b m).
Proof.
  destruct b; [trivial | intros _; apply proceeds_ret].
Qed.

Lemma proceeds_for_loop (bound : num) (body : nat -> M unit) :
  (forall i, proceeds (body i)) ->
  forall fuel i, proceeds (for_loop fuel i bound body).
Proof.
  intros Hb. induction fuel as [|fuel IH]; intros i; cbn [for_loop];
    destruct (JS.of_nat i <? bound)%num; try apply proceeds_ret.
  - intros st. split; [discriminate|]. exists []. cbn. now rewrite app_nil_r.
  - apply proceeds_bind; [apply Hb | intros _; apply IH].
Qed.

Lemma proceeds_processTile svg2pdfFn options L r c :
  proceeds (processTile svg2pdfFn options L r c).
Proof.
  unfold processTile.
  apply proceeds_bind; [apply proceeds_when, proceeds_emit | intros _].
  apply proceeds_bind; [apply proceeds_incr | intros count].
  apply proceeds_bind; [apply proceeds_when, proceeds_emit | intros _].
  apply proceeds_bind; [|intros _; apply proceeds_emit].
  unfold await_svg2pdf. apply proceeds_bind; [apply proceeds_emit | intros _].
  destruct (svg2pdfFn _ _); [apply proceeds_ret|].
  intros st. split; [discriminate|]. exists []. cbn. now rewrite app_nil_r.
Qed.

(** C4.  A margin below 10 is rejected at once: the run throws the validation
    error and has done nothing (no library loaded, no layout, no page, the
    state is untouched).  A margin that is not below 10, such as exactly 10,
    passes: the run starts to work and never throws that error. *)
Theorem margin_validation :
  (forall svg2pdfFn fuel options st,
     (margin options <? lit 10)%num = true ->
     generateTiledPDF svg2pdfFn fuel options st =
     (Thrown (Error "Margin must be at least 10mm for proper labeling."), st)) /\
  (forall svg2pdfFn fuel options,
     (margin options <? lit 10)%num = false ->
     (forall message,
        fst (generateTiledPDF svg2pdfFn fuel options initial) <> Thrown (Error message)) /\
     exists l,
       log (snd (generateTiledPDF svg2pdfFn fuel options initial)) = Import :: ParseSvg :: l) /\
  (lit 9 <? lit 10)%num = true /\ (lit 10 <? lit 10)%num = false.
Proof.
  split; [|split; [|split; reflexivity]].
  - intros svg2pdfFn fuel options st HM. unfold generateTiledPDF. now rewrite HM.
  - intros svg2pdfFn fuel options HM. unfold generateTiledPDF. rewrite HM.
    set (rest := bind (emit (NewPdf _ _)) _).
    assert (P : proceeds rest).
    { apply proceeds_bind; [apply proceeds_emit | intros _].
      apply proceeds_bind.
      - apply proceeds_for_loop. intros r. apply proceeds_for_loop. intros c.
        apply proceeds_processTile.
      - intros _. apply proceeds_bind; [apply proceeds_emit | intros _; apply proceeds_ret]. }
    unfold bind at 1 2. unfold emit at 1 2. cbn [log processedCount initial app].
    destruct (P {| log := [Import; ParseSvg]; processedCount := 0 |}) as [E [l El]].
    split; [exact E|]. exists l. exact El.
Qed.

Lemma margin_validation_witness :
  generateTiledPDF always_renders 3
    {| svgRoot := svg400; paperWidth := lit 210; paperHeight := lit 297;
       margin := lit 9; onProgress := true |} initial =
  (Thrown (Error "Margin must be at least 10mm for proper labeling."), initial) /\
  fst (generateTiledPDF always_renders 3 (a4_margin10 svg400) initial)
  <> Thrown (Error "Margin must be at least 10mm for proper labeling.").
Proof.
  destruct margin_validation as (Reject & Accept & _).
  split.
  - apply Reject. reflexivity.
  - apply (Accept always_renders 3%nat (a4_margin10 svg400)). reflexivity.
Defined.

(** ** Margins that leave no usable area *)

Lemma processTile_returns options L r c st :
  exists st', processTile always_renders options L r c st = (Returned tt, st').
Proof.
  unfold processTile, await_svg2pdf, always_renders, bind, when, incr, emit, ret.
  destruct (_ || _), (onProgress options); eexists; reflexivity.
Qed.

Lemma for_loop_done (fuel i : nat) (bound : num) (body : nat -> M unit) :
  (JS.of_nat i <? bound)%num = false -> for_loop fuel i bound body = ret tt.
Proof.
  intros G. destruct fuel; cbn [for_loop]; now rewrite G.
Qed.

Lemma for_loop_step (fuel i : nat) (bound : num) (body : nat -> M unit) :
  (JS.of_nat i <? bound)%num = true ->
  for_loop (S fuel) i bound body = (body i ;; for_loop fuel (S i) bound body).
Proof.
  intros G. cbn [for_loop]. now rewrite G.
Qed.

Lemma unbounded_loop (body : nat -> M unit) :
  (forall i st, exists st', body i st = (Returned tt, st')) ->
  forall fuel i st, fst (for_loop fuel i (Inf false) body st) = OutOfFuel.
Proof.
  intros Hb. induction fuel as [|fuel IH]; intros i st; cbn [for_loop JS.lt JS.of_nat JS.of_Z negb].
  - reflexivity.
  - unfold bind. destruct (Hb i st) as [st' ->]. apply IH.
Qed.

(** C3, on the code.  A usable width that is not positive is not rejected.
    With paper 15 mm wide and a 10 mm margin the usable width is -5: the run
    returns a result with -80 columns and -160 tiles over a document that
    holds only its first, blank page.  With paper 20 mm wide the usable width
    is 0: there are infinitely many columns and the run never finishes. *)
Theorem nonpositive_usable_width_not_rejected :
  (usableW (layout narrow_paper) = lit (-5) /\
   forall svg2pdfFn fuel,
     (2 <= fuel)%nat ->
     generateTiledPDF svg2pdfFn fuel narrow_paper initial =
     (Returned {| tiles := lit (-160); rows := lit 2; cols := lit (-80) |},
      {| log := [Import; ParseSvg; NewPdf false (lit 15, lit 297); Output];
         processedCount := 0 |})) /\
  (usableW (layout margins_meet) = lit 0 /\
   gridCols (layout margins_meet) = Inf false /\
   forall fuel,
     fst (generateTiledPDF always_renders fuel margins_meet initial) = OutOfFuel).
Proof.
  split; split; try reflexivity.
  - intros svg2pdfFn fuel HF.
    destruct fuel as [|[|fuel]]; [lia | lia |].
    assert (ER : gridRows (layout narrow_paper) = lit 2) by reflexivity.
    assert (EC : gridCols (layout narrow_paper) = lit (-80)) by reflexivity.
    assert (ET : totalTiles (layout narrow_paper) = lit (-160)) by reflexivity.
    unfold generateTiledPDF.
    change (margin narrow_paper <? lit 10)%num with false. cbv iota.
    rewrite ER, EC, ET. cbn [for_loop].
    change (JS.of_nat 0 <? lit 2)%num with true.
    change (JS.of_nat 1 <? lit 2)%num with true.
    change (JS.of_nat 2 <? lit 2)%num with false.
    change (JS.of_nat 0 <? lit (-80))%num with false. cbv iota.
    rewrite for_loop_done by reflexivity. reflexivity.
  - split; [reflexivity|]. intros fuel.
    assert (ER : gridRows (layout margins_meet) = lit 2) by reflexivity.
    assert (EC : gridCols (layout margins_meet) = Inf false) by reflexivity.
    unfold generateTiledPDF.
    change (margin margins_meet <? lit 10)%num with false. cbv iota.
    unfold bind at 1 2 3. unfold emit at 1 2 3. unfold bind at 1.
    rewrite ER, EC.
    destruct fuel as [|fuel]; [reflexivity|].
    rewrite for_loop_step by reflexivity.
    unfold bind at 1 2.
    match goal with
    | |- context [for_loop ?f ?i (Inf false) ?body ?s0] =>
        pose proof (unbounded_loop body
                      (fun c s1 => processTile_returns _ _ 0%nat c s1) f i s0) as U;
        destruct (for_loop f i (Inf false) body s0) as [o st']
    end.
    cbn [fst] in U. now subst o.
Qed.

Lemma nonpositive_usable_width_not_rejected_witness :
  generateTiledPDF always_renders 2 narrow_paper initial =
  (Returned {| tiles := lit (-160); rows := lit 2; cols := lit (-80) |},
   {| log := [Import; ParseSvg; NewPdf false (lit 15, lit 297); Output];
      processedCount := 0 |}).
Proof.
  apply (proj2 (proj1 nonpositive_usable_width_not_rejected) always_renders 2%nat).
  apply le_n.
Defined.

(** ** Progress reports *)

Lemma progress_calls_app (l1 l2 : list event) :
  progress_calls (l1 ++ l2) = (progress_calls l1 + progress_calls l2)%nat.
Proof.
  unfold progress_calls. now rewrite filter_app, length_app.
Qed.

Lemma progress_calls_rows (options : PatternSplitterOptions) (L : Layout) (R C : nat) :
  onProgress options = true ->
  forall n r,
    progress_calls
      (flat_map (fun r => flat_map (tile_block options L R C r) (seq 0 C)) (seq r n)) =
    (n * C)%nat.
Proof.
  intros On.
  assert (Row : forall r n c,
             progress_calls (flat_map (tile_block options L R C r) (seq c n)) = n).
  { intros r. induction n as [|n IH]; intros c; [reflexivity|].
    cbn [seq flat_map]. rewrite progress_calls_app, IH. unfold tile_block.
    rewrite On. now destruct ((r =? 0)%nat && (c =? 0)%nat). }
  induction n as [|n IH]; intros r; [reflexivity|].
  cbn [seq flat_map]. now rewrite progress_calls_app, Row, IH.
Qed.

Lemma progress_precedes_render_app (l1 l2 : list event) :
  progress_precedes_render l1 = true -> progress_precedes_render l2 = true ->
  progress_precedes_render (l1 ++ l2) = true.
Proof.
  intros H1 H2. remember (List.length l1) as n eqn:Len.
  assert (Le : (List.length l1 <= n)%nat) by lia. clear Len.
  revert l1 Le H1. induction n as [|n IH]; intros l1 Le H1.
  - destruct l1; [exact H2 | cbn in Le; lia].
  - destruct l1 as [|e l1]; [exact H2|].
    cbn [List.length] in Le.
    destruct e; cbn [progress_precedes_render app] in *;
      try (apply IH; [lia | exact H1]); try discriminate.
    destruct l1 as [|e' l1]; [discriminate|].
    destruct e'; try discriminate. cbn [app].
    apply IH; [cbn [List.length] in Le; lia | exact H1].
Qed.

Lemma progress_precedes_render_rows (options : PatternSplitterOptions) (L : Layout) (R C : nat) :
  onProgress options = true ->
  forall n r,
    progress_precedes_render
      (flat_map (fun r => flat_map (tile_block options L R C r) (seq 0 C)) (seq r n)) = true.
Proof.
  intros On.
  assert (Row : forall r n c,
             progress_precedes_render
               (flat_map (tile_block options L R C r) (seq c n)) = true).
  { intros r. induction n as [|n IH]; intros c; [reflexivity|].
    cbn [seq flat_map]. apply progress_precedes_render_app; [|apply IH].
    unfold tile_block. rewrite On. now destruct ((r =? 0)%nat && (c =? 0)%nat). }
  induction n as [|n IH]; intros r; [reflexivity|].
  cbn [seq flat_map]. apply progress_precedes_render_app; [apply Row | apply IH].
Qed.

Lemma percent_bounds (k total : nat) :
  (0 < total)%nat -> (k <= total)%nat -> (0 <= percent k total <= 100)%Z.
Proof.
  intros T K. unfold percent.
  set (x := inject_Z (100 * Z.of_nat k) / inject_Z (Z.of_nat total)).
  assert (P : 0 < inject_Z (Z.of_nat total)).
  { change 0 with (inject_Z 0). rewrite <- Zlt_Qlt. lia. }
  assert (X0 : 0 <= x).
  { unfold x. apply Qle_shift_div_l; [exact P|]. rewrite Qmult_0_l.
    change 0 with (inject_Z 0). rewrite <- Zle_Qle. lia. }
  assert (X1 : x <= 100).
  { unfold x. apply Qle_shift_div_r; [exact P|].
    change 100 with (inject_Z 100). rewrite <- inject_Z_mult, <- Zle_Qle. lia. }
  split.
  - change 0%Z with (Qfloor 0). apply Qfloor_resp_le. lra.
  - change 100%Z with (Qfloor (100 + (1 # 2))). apply Qfloor_resp_le. lra.
Qed.

Lemma percent_last (total : nat) : (0 < total)%nat -> percent total total = 100%Z.
Proof.
  intros T. unfold percent.
  assert (N : ~ inject_Z (Z.of_nat total) == 0).
  { intros E. unfold Qeq in E. simpl in E. lia. }
  assert (E : inject_Z (100 * Z.of_nat total) / inject_Z (Z.of_nat total) + (1 # 2)
              == 100 + (1 # 2)).
  { rewrite inject_Z_mult. field. exact N. }
  now rewrite (Qfloor_comp _ _ E).
Qed.



(** ** The physical height *)

Lemma lower_not_capital_I (c : ascii) : Ascii.eqb (lower c) "I" = false.
Proof.
  destruct c as [[] [] [] [] [] [] [] []]; reflexivity.
Qed.

Lemma no_capital_I_toLowerCase (s : string) : no_capital_I (toLowerCase s) = true.
Proof.
  induction s as [|c s IH]; [reflexivity|].
  cbn [toLowerCase no_capital_I]. now rewrite lower_not_capital_I, IH.
Qed.

Lemma no_capital_I_trimStart (s : string) :
  no_capital_I s = true -> no_capital_I (trimStart s) = true.
Proof.
  induction s as [|c s IH]; [trivial|]. intros H. cbn [trimStart].
  destruct (isWhiteSpace c); [|exact H].
  apply IH. cbn [no_capital_I] in H. now apply andb_prop in H.
Qed.

Lemma no_capital_I_sign (s : string) :
  no_capital_I s = true -> no_capital_I (snd (sign s)) = true.
Proof.
  destruct s as [|c s]; [trivial|]. intros H. unfold sign.
  assert (T : no_capital_I s = true) by (cbn [no_capital_I] in H; now apply andb_prop in H).
  destruct (Ascii.eqb c "-"); [exact T|]. destruct (Ascii.eqb c "+"); [exact T | exact H].
Qed.

Lemma startsWith_Infinity (s : string) :
  no_capital_I s = true -> startsWith s "Infinity" = false.
Proof.
  destruct s as [|c s]; [reflexivity|]. cbn [no_capital_I startsWith].
  intros H. apply andb_prop in H as [H _]. apply negb_true_iff in H.
  now rewrite Ascii.eqb_sym, H.
Qed.

Lemma parseFloat_toLowerCase_not_Inf (s : string) (b : bool) :
  parseFloat (toLowerCase s) <> Inf b.
Proof.
  unfold parseFloat.
  pose proof (no_capital_I_sign _
                (no_capital_I_trimStart _ (no_capital_I_toLowerCase s))) as N.
  destruct (sign (trimStart (toLowerCase s))) as [negative s0]. cbn [snd] in N.
  rewrite (startsWith_Infinity _ N).
  destruct (digits s0 0 0) as [[ip il] s1].
  destruct (fraction s1) as [[fp fl] s2].
  destruct (il + fl)%nat; discriminate.
Qed.

Lemma unit_factor_finite (s : string) : exists f, unit_factor s = Fin f.
Proof.
  unfold unit_factor, unit_table. cbn [find fst].
  repeat match goal with
         | |- context [String.eqb ?x ?y] => destruct (String.eqb x y)
         end; eexists; reflexivity.
Qed.

Lemma parseUnit_not_Inf (val : option string) (b : bool) : parseUnit val <> Some (Inf b).
Proof.
  destruct val as [s|]; [|discriminate].
  destruct (nonempty s) eqn:N.
  - rewrite (parseUnit_table s N).
    destruct (unit_factor_finite (toLowerCase s)) as [f ->].
    pose proof (parseFloat_toLowerCase_not_Inf s) as P.
    destruct (parseFloat (toLowerCase s)) as [|t|x]; cbn [JS.mul];
      [discriminate | now elim (P t) | discriminate].
  - unfold parseUnit. rewrite N. discriminate.
Qed.

Lemma parseUnit_canonical (val : option string) (v : num) :
  parseUnit val = Some v -> canonical v.
Proof.
  destruct val as [s|]; [|discriminate].
  destruct (nonempty s) eqn:N.
  - rewrite (parseUnit_table s N). intros [= <-]. apply canonical_mul.
  - unfold parseUnit. rewrite N. discriminate.
Qed.

(** Without a viewBox attribute a resolved dimension is a finite, non-zero
    number in lowest terms. *)
Lemma resolve_axis_no_viewBox (attribute : option string) (d : Q) :
  ~ d == 0 ->
  exists q, resolve_axis attribute None (lit d) = Fin q /\ ~ q == 0 /\ Qred q = q.
Proof.
  intros D. unfold resolve_axis. cbn [option_map usable].
  destruct (usable (parseUnit attribute)) as [v|] eqn:U.
  - pose proof (usable_truthy _ _ U) as T.
    assert (P : parseUnit attribute = Some v).
    { destruct (parseUnit attribute) as [u|]; [|discriminate]. cbn [usable] in U.
      destruct (truthy u); [now injection U as -> | discriminate]. }
    pose proof (parseUnit_canonical _ _ P) as Cn.
    destruct v as [|b|q].
    + discriminate.
    + now elim (parseUnit_not_Inf attribute b).
    + exists q. split; [reflexivity|]. split; [|exact Cn].
      apply truthy_spec in T. now apply (proj2 T).
  - exists (Qred d). split; [reflexivity|]. split; [|apply Qred_involutive].
    now rewrite Qred_correct.
Qed.

Lemma div_Fin (a b : Q) : ~ b == 0 -> (Fin a / Fin b)%num = JS.fin (a / b).
Proof.
  intros B. cbn [JS.div]. now rewrite Qzero_false.
Qed.

Lemma Qdiv_nonzero (a b : Q) : ~ a == 0 -> ~ b == 0 -> ~ a / b == 0.
Proof.
  intros A B E. apply A.
  assert (X : a == a / b * b) by (field; exact B).
  rewrite X, E. ring.
Qed.

Lemma svgWidthMM_truthy (options : PatternSplitterOptions) :
  truthy (svgWidthMM (layout options)) = true.
Proof.
  change (svgWidthMM (layout options)) with (w (getSvgDimensionsInMM (svgRoot options))).
  rewrite getSvgDimensionsInMM_chain. now apply resolve_axis_truthy.
Qed.

Lemma layout_ignores_height_with_viewBox wd ht ht' vb pw ph m cb :
  layout (mkOptions (mkSvg wd ht (Some vb)) pw ph m cb) =
  layout (mkOptions (mkSvg wd ht' (Some vb)) pw ph m cb).
Proof.
  unfold layout. cbn [svgRoot attr_viewBox paperWidth paperHeight margin].
  assert (E : w (getSvgDimensionsInMM (mkSvg wd ht (Some vb))) =
              w (getSvgDimensionsInMM (mkSvg wd ht' (Some vb)))).
  { now rewrite !getSvgDimensionsInMM_chain. }
  now rewrite E.
Qed.

Lemma height_without_viewBox wd ht pw ph m cb :
  svgHeightMM (layout (mkOptions (mkSvg wd ht None) pw ph m cb)) =
  h (getSvgDimensionsInMM (mkSvg wd ht None)).
Proof.
  unfold layout. cbn [svgRoot attr_viewBox svgHeightMM at_index nth].
  rewrite getSvgDimensionsInMM_chain. cbn [w h attr_width attr_height].
  unfold viewBox_extent. cbn [attr_viewBox].
  destruct (resolve_axis_no_viewBox wd 210) as (a & -> & A & _); [discriminate|].
  destruct (resolve_axis_no_viewBox ht 297) as (b & -> & B & Cb); [discriminate|].
  assert (P : ~ 127 # 480 == 0) by discriminate.
  change PX_TO_MM with (Fin (127 # 480)).
  rewrite !div_Fin by assumption. unfold JS.fin.
  assert (A' : ~ Qred (a / (127 # 480)) == 0).
  { rewrite Qred_correct. now apply Qdiv_nonzero. }
  assert (B' : ~ Qred (b / (127 # 480)) == 0).
  { rewrite Qred_correct. now apply Qdiv_nonzero. }
  rewrite (div_Fin _ _ B'). unfold JS.fin.
  rewrite div_Fin.
  - unfold JS.fin. f_equal. rewrite <- Cb at 2. apply Qred_complete.
    rewrite !Qred_correct. field. repeat split; assumption.
  - rewrite Qred_correct. now apply Qdiv_nonzero.
Qed.




(** ** The tiles in native coordinates *)

Lemma cover_1d (v ext tw x : Q) (n : Z) :
  0 < tw -> (1 <= n)%Z -> ext <= inject_Z n * tw -> v <= x <= v + ext ->
  exists k : Z, (0 <= k < n)%Z /\
                v + inject_Z k * tw <= x <= v + inject_Z k * tw + tw.
Proof.
  intros T N E [X0 X1].
  set (q := (x - v) / tw).
  assert (Q0 : 0 <= q).
  { unfold q. apply Qle_shift_div_l; [exact T | lra]. }
  assert (Xq : x == v + q * tw) by (unfold q; field; lra).
  pose proof (Qfloor_le q) as F0. pose proof (Qlt_floor q) as F1.
  assert (K0 : (0 <= Qfloor q)%Z).
  { change 0%Z with (Qfloor 0). now apply Qfloor_resp_le. }
  destruct (Z_lt_le_dec (Qfloor q) n) as [Lt|Ge].
  - exists (Qfloor q). split; [lia|].
    rewrite inject_Z_plus in F1. change (inject_Z 1) with 1 in F1.
    assert (A : inject_Z (Qfloor q) * tw <= q * tw).
    { apply Qmult_le_compat_r; [exact F0 | lra]. }
    assert (B : q * tw <= (inject_Z (Qfloor q) + 1) * tw).
    { apply Qmult_le_compat_r; lra. }
    lra.
  - exists (n - 1)%Z. split; [lia|].
    assert (G : inject_Z n <= inject_Z (Qfloor q)) by now rewrite <- Zle_Qle.
    unfold Z.sub. rewrite inject_Z_plus. change (inject_Z (- (1))) with (- (1)).
    assert (A : inject_Z n * tw <= q * tw).
    { apply Qmult_le_compat_r; lra. }
    lra.
Qed.

Lemma disjoint_1d (v tw x : Q) (k k' : Z) :
  (k < k')%Z ->
  v + inject_Z k * tw < x < v + inject_Z k * tw + tw ->
  v + inject_Z k' * tw < x < v + inject_Z k' * tw + tw ->
  False.
Proof.
  intros K [A0 A1] [B0 B1].
  assert (T : 0 < tw) by lra.
  assert (G : inject_Z k + 1 <= inject_Z k').
  { change 1 with (inject_Z 1). rewrite <- inject_Z_plus, <- Zle_Qle. lia. }
  assert (M : (inject_Z k + 1) * tw <= inject_Z k' * tw).
  { apply Qmult_le_compat_r; lra. }
  lra.
Qed.

Lemma tile_coordinates (L : Layout) (vx vy uw uh sx sy : Q) (r c : nat) :
  at_index (viewBox L) 0 = Fin vx -> at_index (viewBox L) 1 = Fin vy ->
  usableW L = Fin uw -> usableH L = Fin uh ->
  scaleX L = Fin sx -> scaleY L = Fin sy ->
  exists a b wd ht,
    tileViewBox L r c = mkRect (Fin a) (Fin b) (Fin wd) (Fin ht) /\
    a == vx + inject_Z (Z.of_nat c) * (uw * sx) /\
    b == vy + inject_Z (Z.of_nat r) * (uh * sy) /\
    wd == uw * sx /\ ht == uh * sy.
Proof.
  intros Hx Hy Hw Hh Hsx Hsy. unfold tileViewBox.
  rewrite Hx, Hy, Hw, Hh, Hsx, Hsy.
  unfold JS.of_nat, JS.of_Z. cbn [JS.mul JS.add]. unfold JS.fin.
  do 4 eexists. split; [reflexivity|].
  rewrite !Qred_correct. repeat split; ring.
Qed.

Lemma tiles_abut (L : Layout) (vx vy uw uh sx sy : Q) (r c : nat) :
  at_index (viewBox L) 0 = Fin vx -> at_index (viewBox L) 1 = Fin vy ->
  usableW L = Fin uw -> usableH L = Fin uh ->
  scaleX L = Fin sx -> scaleY L = Fin sy ->
  rx (tileViewBox L r (S c)) = (rx (tileViewBox L r c) + rwidth (tileViewBox L r c))%num /\
  ry (tileViewBox L (S r) c) = (ry (tileViewBox L r c) + rheight (tileViewBox L r c))%num.
Proof.
  intros Hx Hy Hw Hh Hsx Hsy. unfold tileViewBox. cbn [rx ry rwidth rheight].
  rewrite Hx, Hy, Hw, Hh, Hsx, Hsy.
  unfold JS.of_nat, JS.of_Z. cbn [JS.mul JS.add].
  split; apply NumFacts.fin_eq; unfold JS.fin; rewrite !Qred_correct;
    rewrite Nat2Z.inj_succ; unfold Z.succ; rewrite inject_Z_plus;
    change (inject_Z 1) with 1; ring.
Qed.

Lemma tiles_disjoint (L : Layout) (vx vy uw uh sx sy : Q) (r c r' c' : nat) (x y : Q) :
  at_index (viewBox L) 0 = Fin vx -> at_index (viewBox L) 1 = Fin vy ->
  usableW L = Fin uw -> usableH L = Fin uh ->
  scaleX L = Fin sx -> scaleY L = Fin sy ->
  (r, c) <> (r', c') ->
  strictly_inside x y (tileViewBox L r c) ->
  strictly_inside x y (tileViewBox L r' c') -> False.
Proof.
  intros Hx Hy Hw Hh Hsx Hsy Ne.
  destruct (tile_coordinates L vx vy uw uh sx sy r c Hx Hy Hw Hh Hsx Hsy)
    as (a & b & wd & ht & -> & Ea & Eb & Ew & Eh).
  destruct (tile_coordinates L vx vy uw uh sx sy r' c' Hx Hy Hw Hh Hsx Hsy)
    as (a' & b' & wd' & ht' & -> & Ea' & Eb' & Ew' & Eh').
  unfold strictly_inside. cbn [rx ry rwidth rheight].
  rewrite Ea, Eb, Ew, Eh, Ea', Eb', Ew', Eh'.
  intros [X Y] [X' Y'].
  destruct (Nat.lt_trichotomy c c') as [Lt|[Eq|Gt]].
  - apply (disjoint_1d vx (uw * sx) x (Z.of_nat c) (Z.of_nat c')); [lia | exact X | exact X'].
  - destruct (Nat.lt_trichotomy r r') as [Lt|[Eq'|Gt]].
    + apply (disjoint_1d vy (uh * sy) y (Z.of_nat r) (Z.of_nat r')); [lia | exact Y | exact Y'].
    + apply Ne. now subst.
    + apply (disjoint_1d vy (uh * sy) y (Z.of_nat r') (Z.of_nat r)); [lia | exact Y' | exact Y].
  - apply (disjoint_1d vx (uw * sx) x (Z.of_nat c') (Z.of_nat c)); [lia | exact X' | exact X].
Qed.

Lemma scaled_extent_covered (ext size usable : Q) :
  0 < ext -> 0 < size -> 0 < usable ->
  0 < usable * Qred (ext / size) /\
  ext <= inject_Z (Qceiling (size / usable)) * (usable * Qred (ext / size)).
Proof.
  intros E S U. rewrite Qred_correct.
  assert (P : 0 < ext / size) by (apply Qlt_shift_div_l; lra).
  split.
  - apply Qmult_lt_0_compat; assumption.
  - pose proof (ceiling_covers size usable U) as Cv.
    apply (Qmult_le_compat_r _ _ (ext / size)) in Cv; [|lra].
    assert (X : size * (ext / size) == ext) by (field; lra).
    rewrite X in Cv. lra.
Qed.

Lemma tiles_cover (options : PatternSplitterOptions) (wm hm uw uh vx vy vw vh x y : Q) :
  let L := layout options in
  svgWidthMM L = Fin wm -> svgHeightMM L = Fin hm ->
  usableW L = Fin uw -> usableH L = Fin uh ->
  at_index (viewBox L) 0 = Fin vx -> at_index (viewBox L) 1 = Fin vy ->
  at_index (viewBox L) 2 = Fin vw -> at_index (viewBox L) 3 = Fin vh ->
  0 < wm -> 0 < hm -> 0 < uw -> 0 < uh -> 0 < vw -> 0 < vh ->
  vx <= x <= vx + vw -> vy <= y <= vy + vh ->
  exists r c,
    (Z.of_nat r < Qceiling (hm / uh))%Z /\ (Z.of_nat c < Qceiling (wm / uw))%Z /\
    inside x y (tileViewBox L r c).
Proof.
  intros L HW HH HUW HUH Hx Hy Hvw Hvh Pw Ph Puw Puh Pvw Pvh X Y.
  assert (Sx : scaleX L = Fin (Qred (vw / wm))).
  { change (scaleX L) with (at_index (viewBox L) 2 / svgWidthMM L)%num.
    rewrite Hvw, HW. apply div_Fin. lra. }
  assert (Sy : scaleY L = Fin (Qred (vh / hm))).
  { change (scaleY L) with (at_index (viewBox L) 3 / svgHeightMM L)%num.
    rewrite Hvh, HH. apply div_Fin. lra. }
  destruct (scaled_extent_covered vw wm uw Pvw Pw Puw) as [Tw Cw].
  destruct (scaled_extent_covered vh hm uh Pvh Ph Puh) as [Th Ch].
  destruct (cover_1d vx vw _ x _ Tw (ceiling_positive wm uw Pw Puw) Cw X)
    as (kc & Kc & Xc).
  destruct (cover_1d vy vh _ y _ Th (ceiling_positive hm uh Ph Puh) Ch Y)
    as (kr & Kr & Yr).
  exists (Z.to_nat kr), (Z.to_nat kc).
  split; [lia|]. split; [lia|].
  destruct (tile_coordinates L vx vy uw uh _ _ (Z.to_nat kr) (Z.to_nat kc)
              Hx Hy HUW HUH Sx Sy) as (a & b & wd & ht & -> & Ea & Eb & Ew & Eh).
  unfold inside. cbn [rx ry rwidth rheight].
  rewrite Ea, Eb, Ew, Eh, !Z2Nat.id by lia.
  split; assumption.
Qed.

Lemma render_sources_app (l1 l2 : list event) :
  render_sources (l1 ++ l2) = (render_sources l1 ++ render_sources l2)%list.
Proof. apply flat_map_app. Qed.

Lemma render_sources_expected (options : PatternSplitterOptions) (R C : nat) :
  render_sources (expected_log options R C) =
  flat_map (fun r => map (tileViewBox (layout options) r) (seq 0 C)) (seq 0 R).
Proof.
  unfold expected_log. rewrite !render_sources_app. cbn [render_sources flat_map app].
  rewrite app_nil_r.
  assert (Row : forall r n c,
             render_sources
               (flat_map (tile_block options (layout options) R C r) (seq c n)) =
             map (tileViewBox (layout options) r) (seq c n)).
  { intros r. induction n as [|n IH]; intros c; [reflexivity|].
    cbn [seq flat_map map]. rewrite render_sources_app, IH. unfold tile_block.
    now destruct ((r =? 0)%nat && (c =? 0)%nat), (onProgress options). }
  assert (Rows : forall n r,
             render_sources
               (flat_map (fun r => flat_map (tile_block options (layout options) R C r)
                                     (seq 0 C)) (seq r n)) =
             flat_map (fun r => map (tileViewBox (layout options) r) (seq 0 C)) (seq r n)).
  { induction n as [|n IH]; intros r; [reflexivity|].
    cbn [seq flat_map]. now rewrite render_sources_app, Row, IH. }
  apply Rows.
Qed.

Lemma lt_of_Z (a b : Z) : (JS.of_Z a <? JS.of_Z b)%num = (a <? b)%Z.
Proof.
  unfold JS.lt, JS.of_Z.
  destruct (Qlt_le_dec _ _) as [H|H]; symmetry.
  - apply Z.ltb_lt. now rewrite Zlt_Qlt.
  - apply Z.ltb_ge. now rewrite Zle_Qle.
Qed.



(** * Further properties of the code *)

(** ** Edge instructions across the grid *)

Lemma border_rule_Z (row col totalRows totalCols : Z) :
  getTileBorderInstructions
    (JS.of_Z row) (JS.of_Z col) (JS.of_Z totalRows) (JS.of_Z totalCols) =
  {| top := if (row =? 0)%Z then none else cut;
     right := if (col =? totalCols - 1)%Z then none else glue;
     bottom := if (row =? totalRows - 1)%Z then none else glue;
     left := if (col =? 0)%Z then none else cut |}.
Proof.
  unfold getTileBorderInstructions.
  change (lit 0) with (JS.of_Z 0). change (lit 1) with (JS.of_Z 1).
  now rewrite !NumFacts.sub_Z, !NumFacts.eqb_Z.
Qed.

Lemma border_rule_nat (r c R C : nat) :
  getTileBorderInstructions (JS.of_nat r) (JS.of_nat c) (JS.of_nat R) (JS.of_nat C) =
  {| top := if (r =? 0)%nat then none else cut;
     right := if (S c =? C)%nat then none else glue;
     bottom := if (S r =? R)%nat then none else glue;
     left := if (c =? 0)%nat then none else cut |}.
Proof.
  unfold JS.of_nat. rewrite border_rule_Z.
  assert (E : forall a b : nat, (Z.of_nat a =? Z.of_nat b - 1)%Z = (S a =? b)%nat).
  { intros a b. destruct (Nat.eqb_spec (S a) b) as [H|H].
    - apply Z.eqb_eq. lia.
    - apply Z.eqb_neq. lia. }
  assert (Z0 : forall a : nat, (Z.of_nat a =? 0)%Z = (a =? 0)%nat).
  { intros a. now destruct a. }
  now rewrite !E, !Z0.
Qed.

(** X1.  Neighbouring tiles agree on the edge they share: where a tile has a
    right neighbour its right edge says glue and the neighbour's left edge
    says cut, and where it has a neighbour below its bottom edge says glue and
    that neighbour's top edge says cut.  The four outer sides of the mosaic
    carry no instruction. *)
Theorem shared_edges_pair_glue_with_cut :
  forall r c R C : nat,
    (r < R)%nat -> (c < C)%nat ->
    let tile r c := getTileBorderInstructions
                      (JS.of_nat r) (JS.of_nat c) (JS.of_nat R) (JS.of_nat C) in
    ((S c < C)%nat -> right (tile r c) = glue /\ left (tile r (S c)) = cut) /\
    ((S r < R)%nat -> bottom (tile r c) = glue /\ top (tile (S r) c) = cut) /\
    top (tile O c) = none /\ left (tile r O) = none /\
    right (tile r (Nat.pred C)) = none /\ bottom (tile (Nat.pred R) c) = none.
Proof.
  intros r c R C HR HC tile. subst tile. cbv beta.
  rewrite !border_rule_nat. cbn [top right bottom left].
  repeat split.
  - destruct (Nat.eqb_spec (S c) C); [lia | reflexivity].
  - destruct (Nat.eqb_spec (S r) R); [lia | reflexivity].
  - destruct (Nat.eqb_spec (S (Nat.pred C)) C); [reflexivity | lia].
  - destruct (Nat.eqb_spec (S (Nat.pred R)) R); [reflexivity | lia].
Qed.

Lemma shared_edges_pair_glue_with_cut_witness :
  right (getTileBorderInstructions (lit 0) (lit 1) (lit 2) (lit 3)) = glue /\
  left (getTileBorderInstructions (lit 0) (lit 2) (lit 2) (lit 3)) = cut.
Proof.
  destruct (shared_edges_pair_glue_with_cut 0 1 2 3) as (H & _);
    [repeat constructor | repeat constructor |].
  apply H. repeat constructor.
Defined.

Lemma labels_drawn_app (i : BorderInstruction) (l1 l2 : list event) :
  labels_drawn i (l1 ++ l2) = (labels_drawn i l1 + labels_drawn i l2)%nat.
Proof.
  induction l1 as [|e l1 IH]; [reflexivity|].
  destruct e; cbn [app labels_drawn]; rewrite IH; lia.
Qed.

Section GridLabels.

Variable options : PatternSplitterOptions.
Variables R C : nat.
Hypothesis grid_rows : gridRows (layout options) = JS.of_nat R.
Hypothesis grid_cols : gridCols (layout options) = JS.of_nat C.

Lemma labels_drawn_tile (i : BorderInstruction) (r c : nat) :
  labels_drawn i (tile_block options (layout options) R C r c) =
  instr_count i
    {| top := if (r =? 0)%nat then none else cut;
       right := if (S c =? C)%nat then none else glue;
       bottom := if (S r =? R)%nat then none else glue;
       left := if (c =? 0)%nat then none else cut |}.
Proof.
  unfold tile_block, tile_annotation. rewrite grid_rows, grid_cols, border_rule_nat.
  destruct ((r =? 0)%nat && (c =? 0)%nat), (onProgress options);
    cbn [app labels_drawn]; lia.
Qed.

Lemma glue_labels_row (r : nat) :
  forall n c, (c + n = C)%nat ->
    labels_drawn glue (flat_map (tile_block options (layout options) R C r) (seq c n)) =
    (Nat.pred n + (if (S r =? R)%nat then 0 else n))%nat.
Proof.
  induction n as [|n IH]; intros c E.
  - now destruct (S r =? R)%nat.
  - cbn [seq flat_map]. rewrite labels_drawn_app, labels_drawn_tile, IH by lia.
    destruct (Nat.eqb_spec (S c) C) as [Last|More]; destruct (S r =? R)%nat, (r =? 0)%nat, (c =? 0)%nat;
      cbn; lia.
Qed.

Lemma cut_labels_row (r : nat) :
  forall n c,
    labels_drawn cut (flat_map (tile_block options (layout options) R C r) (seq c n)) =
    ((if (c =? 0)%nat then Nat.pred n else n) + (if (r =? 0)%nat then 0 else n))%nat.
Proof.
  induction n as [|n IH]; intros c.
  - now destruct (c =? 0)%nat, (r =? 0)%nat.
  - cbn [seq flat_map]. rewrite labels_drawn_app, labels_drawn_tile, IH.
    replace (S c =? 0)%nat with false by reflexivity.
    destruct (S c =? C)%nat, (S r =? R)%nat, (r =? 0)%nat, (c =? 0)%nat; cbn; lia.
Qed.

Lemma glue_labels_rows :
  forall n r, (r + n = R)%nat ->
    labels_drawn glue
      (flat_map (fun r => flat_map (tile_block options (layout options) R C r) (seq 0 C))
         (seq r n)) =
    (n * Nat.pred C + Nat.pred n * C)%nat.
Proof.
  induction n as [|n IH]; intros r E; [reflexivity|].
  cbn [seq flat_map]. rewrite labels_drawn_app, (glue_labels_row r C 0 eq_refl), IH by lia.
  destruct (Nat.eqb_spec (S r) R) as [Last|More]; destruct n; cbn; lia.
Qed.

Lemma cut_labels_rows :
  forall n r,
    labels_drawn cut
      (flat_map (fun r => flat_map (tile_block options (layout options) R C r) (seq 0 C))
         (seq r n)) =
    (n * Nat.pred C + (if (r =? 0)%nat then Nat.pred n else n) * C)%nat.
Proof.
  induction n as [|n IH]; intros r.
  - now destruct (r =? 0)%nat.
  - cbn [seq flat_map]. rewrite labels_drawn_app, cut_labels_row, IH.
    replace (S r =? 0)%nat with false by reflexivity.
    destruct (r =? 0)%nat; cbn; lia.
Qed.

Lemma labels_drawn_expected :
  labels_drawn glue (expected_log options R C) = (R * Nat.pred C + Nat.pred R * C)%nat /\
  labels_drawn cut (expected_log options R C) = (R * Nat.pred C + Nat.pred R * C)%nat.
Proof.
  unfold expected_log. rewrite !labels_drawn_app.
  rewrite (glue_labels_rows R 0 eq_refl), (cut_labels_rows R 0). cbn. lia.
Qed.

Lemma diamonds_tile (r c : nat) :
  (r < R)%nat -> (c < C)%nat ->
  diamonds_match_instructions (tile_block options (layout options) R C r c).
Proof.
  intros HR HC. unfold diamonds_match_instructions, tile_block, tile_annotation.
  rewrite grid_rows, grid_cols, border_rule_nat, !gt_zero_of_nat.
  change (lit 1) with (JS.of_Z 1). unfold JS.of_nat.
  rewrite !NumFacts.sub_Z, !lt_of_Z.
  assert (E : forall a b : nat, (a < b)%nat ->
                (Z.of_nat a <? Z.of_nat b - 1)%Z = negb (S a =? b)%nat).
  { intros a b L. destruct (Nat.eqb_spec (S a) b) as [H|H]; cbn [negb].
    - apply Z.ltb_ge. lia.
    - apply Z.ltb_lt. lia. }
  rewrite (E c C HC), (E r R HR).
  apply Forall_app. split; [|apply Forall_app; split].
  - destruct (_ && _); repeat constructor.
  - destruct (onProgress options); repeat constructor.
  - constructor; [exact I|]. constructor; [|constructor].
    unfold instructed. cbn [top right bottom left].
    now destruct (S c =? C)%nat, (S r =? R)%nat, (r =? 0)%nat, (c =? 0)%nat.
Qed.

Lemma diamonds_expected : diamonds_match_instructions (expected_log options R C).
Proof.
  unfold diamonds_match_instructions, expected_log.
  apply Forall_app. split; [repeat constructor|].
  apply Forall_app. split; [|repeat constructor].
  apply Forall_flat_map, Forall_forall. intros r Hr. apply in_seq in Hr.
  apply Forall_flat_map, Forall_forall. intros c Hc. apply in_seq in Hc.
  apply diamonds_tile; lia.
Qed.

End GridLabels.

(** X2.  Over a whole run on an R x C grid every shared edge gets exactly one
    glue label (on the tile left of or above it) and one cut label (on the
    other tile): R * (C - 1) + (R - 1) * C labels of each kind are drawn. *)
Theorem glue_and_cut_labels_balance :
  forall svg2pdfFn options R C fuel,
    (margin options <? lit 10)%num = false ->
    gridRows (layout options) = JS.of_nat R ->
    gridCols (layout options) = JS.of_nat C ->
    (forall source target, svg2pdfFn source target = true) ->
    (R <= fuel)%nat -> (C <= fuel)%nat ->
    let events := log (snd (generateTiledPDF svg2pdfFn fuel options initial)) in
    labels_drawn glue events = (R * (C - 1) + (R - 1) * C)%nat /\
    labels_drawn cut events = (R * (C - 1) + (R - 1) * C)%nat.
Proof.
  intros svg2pdfFn options R C fuel HM ER EC Res HR HC events. subst events.
  rewrite (generateTiledPDF_run svg2pdfFn Res options R C ER EC fuel HM HR HC).
  cbn [snd log]. rewrite !Nat.sub_1_r.
  now apply labels_drawn_expected.
Qed.

Lemma glue_and_cut_labels_balance_witness :
  let events := log (snd (generateTiledPDF always_renders 3 (a4_margin10 svg400) initial)) in
  labels_drawn glue events = 7%nat /\ labels_drawn cut events = 7%nat.
Proof.
  apply (glue_and_cut_labels_balance always_renders (a4_margin10 svg400) 2 3 3);
    try reflexivity; repeat constructor.
Defined.

(** X3.  On every tile of a run a diamond mark is drawn on exactly the edges
    that carry a cut or glue instruction: the two tests ([c < cols - 1] for
    the mark, [col === totalCols - 1] for the label) agree on the tiles the
    loops visit. *)
Theorem diamonds_on_instructed_edges :
  forall svg2pdfFn options R C fuel,
    (margin options <? lit 10)%num = false ->
    gridRows (layout options) = JS.of_nat R ->
    gridCols (layout options) = JS.of_nat C ->
    (forall source target, svg2pdfFn source target = true) ->
    (R <= fuel)%nat -> (C <= fuel)%nat ->
    diamonds_match_instructions
      (log (snd (generateTiledPDF svg2pdfFn fuel options initial))).
Proof.
  intros svg2pdfFn options R C fuel HM ER EC Res HR HC.
  rewrite (generateTiledPDF_run svg2pdfFn Res options R C ER EC fuel HM HR HC).
  now apply diamonds_expected.
Qed.

Lemma diamonds_on_instructed_edges_witness :
  diamonds_match_instructions
    (log (snd (generateTiledPDF always_renders 3 (a4_margin10 svg400) initial))).
Proof.
  apply (diamonds_on_instructed_edges always_renders (a4_margin10 svg400) 2 3 3);
    try reflexivity; repeat constructor.
Defined.

(** ** More about lengths *)

Lemma nonempty_toLowerCase (s : string) : nonempty (toLowerCase s) = nonempty s.
Proof. now destruct s. Qed.

(** X4.  Letter case never matters to [parseUnit]: two strings that are equal
    up to case convert to the same value, number and unit alike. *)
Theorem parseUnit_ignores_case :
  forall s s' : string,
    toLowerCase s = toLowerCase s' -> parseUnit (Some s) = parseUnit (Some s').
Proof.
  intros s s' E.
  assert (N : nonempty s = nonempty s').
  { now rewrite <- (nonempty_toLowerCase s), <- (nonempty_toLowerCase s'), E. }
  destruct (nonempty s) eqn:Ns.
  - rewrite (parseUnit_table s Ns), (parseUnit_table s') by now rewrite <- N.
    now rewrite E.
  - unfold parseUnit. now rewrite <- N, Ns.
Qed.

Lemma parseUnit_ignores_case_witness :
  parseUnit (Some "2.5E1Pt") = parseUnit (Some "2.5e1pT").
Proof.
  apply parseUnit_ignores_case. reflexivity.
Defined.

Lemma string_app_assoc (a b c : string) : ((a ++ b) ++ c)%string = (a ++ (b ++ c))%string.
Proof.
  induction a as [|x a IH]; [reflexivity|]. cbn. now rewrite IH.
Qed.

Lemma toLowerCase_app (a b : string) :
  toLowerCase (a ++ b) = (toLowerCase a ++ toLowerCase b)%string.
Proof.
  induction a as [|x a IH]; [reflexivity|]. cbn. now rewrite IH.
Qed.

Lemma last2_last_char (s : string) (c : ascii) :
  last2 (s ++ String c EmptyString) = EmptyString \/
  exists x, last2 (s ++ String c EmptyString) = String x (String c EmptyString).
Proof.
  destruct s as [|x s]; [now left|]. right. revert x.
  induction s as [|y s IH]; intros x; [now exists x|].
  destruct (IH y) as [z E]. exists z. rewrite <- E.
  cbn [String.append]. destruct s; reflexivity.
Qed.

Lemma recognized_last_char (s : string) (c : ascii) :
  ends_no_unit c = true -> recognized (toLowerCase (s ++ String c EmptyString)) = false.
Proof.
  intros E. rewrite toLowerCase_app. cbn [toLowerCase].
  unfold ends_no_unit in E. apply negb_true_iff in E.
  apply orb_false_elim in E as [E Ec]. apply orb_false_elim in E as [E Et].
  apply orb_false_elim in E as [Em En].
  unfold recognized, unit_table. cbn [existsb fst].
  destruct (last2_last_char (toLowerCase s) (lower c)) as [-> | [x ->]]; [reflexivity|].
  assert (U : forall a b : ascii,
             Ascii.eqb (lower c) b = false ->
             String.eqb (String a (String b EmptyString))
               (String x (String (lower c) EmptyString)) = false).
  { intros a b Nb. cbn. rewrite (Ascii.eqb_sym b), Nb. now destruct (Ascii.eqb a x). }
  now rewrite !U.
Qed.

(** X5.  A length is converted with a unit only when its very last two
    characters are the unit: whatever ends with a character other than m, n, t
    or c (a percent sign, a digit, a trailing space, px, em) is multiplied by
    the pixel factor 25.4/96, even when a unit stands before that
    character. *)
Theorem parseUnit_pixels_unless_unit_ends :
  forall (s : string) (c : ascii),
    ends_no_unit c = true ->
    parseUnit (Some (s ++ String c EmptyString)) =
    Some (parseFloat (toLowerCase (s ++ String c EmptyString)) * PX_TO_MM)%num.
Proof.
  intros s c E. rewrite parseUnit_table.
  - now rewrite unit_factor_unrecognized by now apply recognized_last_char.
  - now destruct s.
Qed.

Lemma parseUnit_pixels_unless_unit_ends_witness :
  parseUnit (Some "50%") = Some (lit 50 * PX_TO_MM)%num /\
  parseUnit (Some "10mm ") = Some (lit 10 * PX_TO_MM)%num.
Proof.
  split.
  - apply (parseUnit_pixels_unless_unit_ends "50" "%"%char). reflexivity.
  - apply (parseUnit_pixels_unless_unit_ends "10mm" " "%char). reflexivity.
Defined.

Lemma digits_ends_fraction (rest : string) (acc : Z) (len : nat) :
  ends_fraction rest = true ->
  digits rest acc len = (acc, len, rest) /\ exponent rest = 0%Z.
Proof.
  destruct rest as [|c rest]; [now intros _|].
  unfold ends_fraction, exponent. cbn [digits].
  destruct (digit c); [discriminate|].
  rewrite negb_true_iff. intros E. now rewrite E.
Qed.

Lemma sign_trim_decimal (negative : bool) (ip fp : list nat) (rest : string) :
  Forall (fun d => d < 10)%nat ip ->
  let body := (numeral ip ++ "." ++ numeral fp ++ rest)%string in
  sign (trimStart ((if negative then "-" else "") ++ body)) = (negative, body) /\
  startsWith body "Infinity" = false.
Proof.
  intros F body. subst body.
  destruct F as [|d ip B F].
  - destruct negative; split; reflexivity.
  - cbn [numeral String.append].
    destruct negative; cbn [String.append].
    + split; [reflexivity|].
      apply (digit_char_cases (fun c => startsWith (String c _) "Infinity" = false) d B);
        reflexivity.
    + split.
      * apply (digit_char_cases
                 (fun c => sign (trimStart (String c _)) = (false, String c _)) d B);
          reflexivity.
      * apply (digit_char_cases (fun c => startsWith (String c _) "Infinity" = false) d B);
          reflexivity.
Qed.

Lemma digits_dot (t : string) (acc : Z) (len : nat) :
  digits (String "."%char t) acc len = (acc, len, String "."%char t).
Proof. reflexivity. Qed.

Lemma fraction_dot (t : string) : fraction (String "."%char t) = digits t 0 0.
Proof. reflexivity. Qed.

Lemma parseFloat_decimal (negative : bool) (ip : list nat) (d : nat) (fp : list nat)
  (rest : string) :
  Forall (fun d => d < 10)%nat ip -> Forall (fun d => d < 10)%nat (d :: fp) ->
  ends_fraction rest = true ->
  parseFloat (decimal negative ip (d :: fp) ++ rest) =
  JS.fin (signed negative (decimal_value ip (d :: fp))).
Proof.
  intros Fi Ff E. unfold decimal. rewrite !string_app_assoc.
  unfold parseFloat.
  destruct (sign_trim_decimal negative ip (d :: fp) rest Fi) as [S I].
  cbv zeta in S, I. rewrite S, I.
  rewrite (digits_numeral ip _ Fi 0%Z O).
  change ("." ++ numeral (d :: fp) ++ rest)%string
    with (String "."%char (numeral (d :: fp) ++ rest)).
  rewrite digits_dot, fraction_dot.
  rewrite (digits_numeral (d :: fp) rest Ff 0%Z O).
  destruct (digits_ends_fraction rest (numeral_value 0 (d :: fp))
              (0 + List.length (d :: fp)) E) as [-> ->].
  cbn [Nat.add List.length]. rewrite Nat.add_succ_r.
  apply NumFacts.fin_eq. unfold decimal_value, signed. cbn [List.length].
  change (Qpower 10 0) with 1. destruct negative; ring.
Qed.



(** ** Runs that render nothing, and runs that fail *)

Lemma div_NaN_r (a : num) : (a / NaN)%num = NaN.
Proof. now destruct a. Qed.

Lemma mul_NaN_r (a : num) : (a * NaN)%num = NaN.
Proof. now destruct a. Qed.

Lemma layout_NaN_aspect (options : PatternSplitterOptions) :
  at_index (viewBox (layout options)) 2 = NaN \/
  at_index (viewBox (layout options)) 3 = NaN ->
  gridRows (layout options) = NaN /\ totalTiles (layout options) = NaN.
Proof.
  intros H.
  assert (A : (at_index (viewBox (layout options)) 2 /
               at_index (viewBox (layout options)) 3)%num = NaN).
  { destruct H as [-> | ->]; [reflexivity | apply div_NaN_r]. }
  assert (R : gridRows (layout options) = NaN).
  { change (gridRows (layout options))
      with (JS.ceil (svgWidthMM (layout options) /
                     (at_index (viewBox (layout options)) 2 /
                      at_index (viewBox (layout options)) 3) /
                     usableH (layout options))%num).
    now rewrite A, div_NaN_r. }
  split; [exact R|].
  change (totalTiles (layout options))
    with (gridCols (layout options) * gridRows (layout options))%num.
  now rewrite R, mul_NaN_r.
Qed.

Lemma empty_grid_run svg2pdfFn fuel options :
  (margin options <? lit 10)%num = false ->
  (JS.of_nat 0 <? gridRows (layout options))%num = false ->
  generateTiledPDF svg2pdfFn fuel options initial =
  (Returned {| tiles := totalTiles (layout options);
               rows := gridRows (layout options);
               cols := gridCols (layout options) |},
   {| log := [Import; ParseSvg;
              NewPdf (paperWidth options >? paperHeight options)%num
                (paperWidth options, paperHeight options);
              Output];
      processedCount := 0 |}).
Proof.
  intros HM G. unfold generateTiledPDF. rewrite HM.
  now rewrite (for_loop_done fuel 0 _ _ G).
Qed.

(** X7.  A viewBox whose width or height does not parse (for one, a viewBox
    attribute with fewer than four numbers) makes the aspect ratio NaN: the
    run then renders no tile at all and still returns normally, with NaN tiles
    and rows, over a document that holds only its blank first page. *)
Theorem unparsable_viewBox_gives_blank_document :
  forall svg2pdfFn fuel options,
    (margin options <? lit 10)%num = false ->
    let L := layout options in
    let blank :=
      (Returned {| tiles := NaN; rows := NaN; cols := gridCols L |},
       {| log := [Import; ParseSvg;
                  NewPdf (paperWidth options >? paperHeight options)%num
                    (paperWidth options, paperHeight options);
                  Output];
          processedCount := 0 |}) in
    (at_index (viewBox L) 2 = NaN \/ at_index (viewBox L) 3 = NaN ->
     generateTiledPDF svg2pdfFn fuel options initial = blank) /\
    (forall vb,
       attr_viewBox (svgRoot options) = Some vb ->
       (List.length (parseViewBox vb) < 4)%nat ->
       generateTiledPDF svg2pdfFn fuel options initial = blank).
Proof.
  intros svg2pdfFn fuel options HM L blank.
  assert (Main : at_index (viewBox L) 2 = NaN \/ at_index (viewBox L) 3 = NaN ->
                 generateTiledPDF svg2pdfFn fuel options initial = blank).
  { intros H. destruct (layout_NaN_aspect options H) as [ER ET].
    rewrite (empty_grid_run svg2pdfFn fuel options HM) by now rewrite ER.
    subst blank L. now rewrite ER, ET. }
  split; [exact Main|].
  intros vb Hvb Len. apply Main. right.
  change (viewBox L) with
    (match attr_viewBox (svgRoot options) with
     | None => [lit 0; lit 0;
                (w (getSvgDimensionsInMM (svgRoot options)) / PX_TO_MM)%num;
                (h (getSvgDimensionsInMM (svgRoot options)) / PX_TO_MM)%num]
     | Some vb => parseViewBox vb
     end).
  rewrite Hvb. unfold at_index. apply nth_overflow. lia.
Qed.

Lemma unparsable_viewBox_gives_blank_document_witness :
  generateTiledPDF always_renders 0
    (a4_margin10 (mkSvg (Some "400mm") (Some "400mm") (Some "0 0 400"))) initial =
  (Returned {| tiles := NaN; rows := NaN; cols := lit 3 |},
   {| log := [Import; ParseSvg; NewPdf false (lit 210, lit 297); Output];
      processedCount := 0 |}).
Proof.
  apply (proj2 (unparsable_viewBox_gives_blank_document always_renders 0
                  (a4_margin10 (mkSvg (Some "400mm") (Some "400mm") (Some "0 0 400")))
                  eq_refl) "0 0 400" eq_refl).
  repeat constructor.
Defined.

Section Rejection.

Variable svg2pdfFn : Rect -> Rect -> bool.

Lemma sar_ret {A : Type} (a : A) : stops_at_rejection svg2pdfFn (ret a).
Proof.
  intros st. exists []. split; [now rewrite app_nil_r | constructor].
Qed.

Lemma sar_emit (e : event) :
  went_well svg2pdfFn e -> stops_at_rejection svg2pdfFn (emit e).
Proof.
  intros W st. exists [e]. split; [reflexivity | now repeat constructor].
Qed.

Lemma sar_incr : stops_at_rejection svg2pdfFn incr.
Proof.
  intros st. exists []. split; [cbn; now rewrite app_nil_r | constructor].
Qed.

Lemma sar_bind {A B : Type} (m : M A) (k : A -> M B) :
  stops_at_rejection svg2pdfFn m -> (forall a, stops_at_rejection svg2pdfFn (k a)) ->
  stops_at_rejection svg2pdfFn (bind m k).
Proof.
  intros Hm Hk st. unfold bind. specialize (Hm st).
  destruct (m st) as [[a|e|] st1].
  - destruct Hm as (l & El & Fl). specialize (Hk a st1).
    destruct (k a st1) as [[b|e|] st2].
    + destruct Hk as (l' & El' & Fl'). exists (l ++ l')%list.
      split; [now rewrite El', El, app_assoc | now apply Forall_app].
    + destruct Hk as (-> & l' & s & t & El' & Rej & Fl'). split; [reflexivity|].
      exists (l ++ l')%list, s, t.
      split; [now rewrite El', El, !app_assoc|]. split; [exact Rej | now apply Forall_app].
    + destruct Hk as (l' & El' & Fl'). exists (l ++ l')%list.
      split; [now rewrite El', El, app_assoc | now apply Forall_app].
  - exact Hm.
  - exact Hm.
Qed.

Lemma sar_when (b : bool) (m : M unit) :
  stops_at_rejection svg2pdfFn m -> stops_at_rejection svg2pdfFn (when b m).
Proof.
  destruct b; [trivial | intros _; apply sar_ret].
Qed.

Lemma sar_for_loop (bound : num) (body : nat -> M unit) :
  (forall i, stops_at_rejection svg2pdfFn (body i)) ->
  forall fuel i, stops_at_rejection svg2pdfFn (for_loop fuel i bound body).
Proof.
  intros Hb. induction fuel as [|fuel IH]; intros i; cbn [for_loop];
    destruct (JS.of_nat i <? bound)%num; try apply sar_ret.
  - intros st. exists []. split; [now rewrite app_nil_r | constructor].
  - apply sar_bind; [apply Hb | intros _; apply IH].
Qed.

Lemma sar_await (source target : Rect) :
  stops_at_rejection svg2pdfFn (await_svg2pdf svg2pdfFn source target).
Proof.
  intros st. unfold await_svg2pdf, bind, emit, ret, throw.
  destruct (svg2pdfFn source target) eqn:Ok.
  - exists [Render source target]. split; [reflexivity|]. now repeat constructor.
  - split; [reflexivity|]. exists [], source, target. now repeat split.
Qed.

Lemma sar_processTile options L r c :
  stops_at_rejection svg2pdfFn (processTile svg2pdfFn options L r c).
Proof.
  unfold processTile.
  apply sar_bind; [now apply sar_when, sar_emit | intros _].
  apply sar_bind; [apply sar_incr | intros count].
  apply sar_bind; [now apply sar_when, sar_emit | intros _].
  apply sar_bind; [apply sar_await | intros _]. now apply sar_emit.
Qed.

Lemma fwo_bind {A B : Type} (m : M A) (k : A -> M B) :
  stops_at_rejection svg2pdfFn m -> (forall a, finishes_with_output svg2pdfFn (k a)) ->
  finishes_with_output svg2pdfFn (bind m k).
Proof.
  intros Hm Hk st. unfold bind. specialize (Hm st).
  destruct (m st) as [[a|e|] st1].
  - destruct Hm as (l & El & Fl). specialize (Hk a st1).
    destruct (k a st1) as [[b|e|] st2].
    + destruct Hk as (l' & El' & Fl'). exists (l ++ l')%list.
      split; [now rewrite El', El, !app_assoc | now apply Forall_app].
    + destruct Hk as (-> & l' & s & t & El' & Rej & Fl'). split; [reflexivity|].
      exists (l ++ l')%list, s, t.
      split; [now rewrite El', El, !app_assoc|]. split; [exact Rej | now apply Forall_app].
    + destruct Hk as (l' & El' & Fl'). exists (l ++ l')%list.
      split; [now rewrite El', El, app_assoc | now apply Forall_app].
  - exact Hm.
  - exact Hm.
Qed.

Lemma fwo_generateTiledPDF fuel options :
  (margin options <? lit 10)%num = false ->
  finishes_with_output svg2pdfFn (generateTiledPDF svg2pdfFn fuel options).
Proof.
  intros HM. unfold generateTiledPDF. rewrite HM.
  apply fwo_bind; [now apply sar_emit | intros _].
  apply fwo_bind; [now apply sar_emit | intros _].
  apply fwo_bind; [now apply sar_emit | intros _].
  apply fwo_bind.
  - apply sar_for_loop. intros r. apply sar_for_loop. intros c. apply sar_processTile.
  - intros _ st. unfold bind, emit, ret. exists []. split; [reflexivity | constructor].
Qed.

End Rejection.

(** X8.  A run that passes validation ends in one of three ways.  It returns,
    and then [Output] is the last thing it did and every rendering before it
    was resolved.  Or it throws, and then only because the renderer rejected a
    request: that request is the last event, every earlier rendering was
    resolved, and no output was produced.  Or it is still going (out of
    fuel), with nothing rejected and no output so far. *)
Theorem run_stops_at_first_rejected_rendering :
  forall svg2pdfFn fuel options,
    (margin options <? lit 10)%num = false ->
    match generateTiledPDF svg2pdfFn fuel options initial with
    | (Returned _, st) =>
        exists l, log st = (l ++ [Output])%list /\ Forall (went_well svg2pdfFn) l
    | (Thrown e, st) =>
        e = RenderRejected /\
        exists l source target,
          log st = (l ++ [Render source target])%list /\
          svg2pdfFn source target = false /\ Forall (went_well svg2pdfFn) l
    | (OutOfFuel, st) => Forall (went_well svg2pdfFn) (log st)
    end.
Proof.
  intros svg2pdfFn fuel options HM.
  pose proof (fwo_generateTiledPDF svg2pdfFn fuel options HM initial) as H.
  destruct (generateTiledPDF svg2pdfFn fuel options initial) as [[r|e|] st];
    cbn [log initial app] in H.
  - exact H.
  - exact H.
  - destruct H as (l & -> & F). exact F.
Qed.

Lemma run_stops_at_first_rejected_rendering_witness :
  fst (generateTiledPDF first_column_only 3 (a4_margin10 svg400) initial) =
    Thrown RenderRejected /\
  progress_calls
    (log (snd (generateTiledPDF first_column_only 3 (a4_margin10 svg400) initial))) = 2%nat /\
  match generateTiledPDF first_column_only 3 (a4_margin10 svg400) initial with
  | (Returned _, st) =>
      exists l, log st = (l ++ [Output])%list /\ Forall (went_well first_column_only) l
  | (Thrown e, st) =>
      e = RenderRejected /\
      exists l source target,
        log st = (l ++ [Render source target])%list /\
        first_column_only source target = false /\ Forall (went_well first_column_only) l
  | (OutOfFuel, st) => Forall (went_well first_column_only) (log st)
  end.
Proof.
  split; [reflexivity|]. split; [reflexivity|].
  apply (run_stops_at_first_rejected_rendering first_column_only 3 (a4_margin10 svg400)).
  reflexivity.
Defined.

(** ** What every run keeps to *)

Section Fits.

Variable svg2pdfFn : Rect -> Rect -> bool.
Variable P : event -> Prop.

Lemma eo_ret {A : Type} (a : A) : emits_only P (ret a).
Proof.
  intros st. exists []. split; [cbn; now rewrite app_nil_r | constructor].
Qed.

Lemma eo_emit (e : event) : P e -> emits_only P (emit e).
Proof.
  intros W st. exists [e]. split; [reflexivity | now repeat constructor].
Qed.

Lemma eo_bind {A B : Type} (m : M A) (k : A -> M B) :
  emits_only P m -> (forall a, emits_only P (k a)) -> emits_only P (bind m k).
Proof.
  intros Hm Hk st. unfold bind. destruct (Hm st) as (l & El & Fl).
  destruct (m st) as [[a|e|] st1]; cbn [snd] in *; try (now exists l).
  destruct (Hk a st1) as (l' & El' & Fl'). exists (l ++ l')%list.
  split; [now rewrite El', El, app_assoc | now apply Forall_app].
Qed.

Lemma eo_when (b : bool) (m : M unit) : (b = true -> emits_only P m) -> emits_only P (when b m).
Proof.
  destruct b; [intros H; now apply H | intros _; apply eo_ret].
Qed.

Lemma eo_for_loop (bound : num) (body : nat -> M unit) :
  (forall i, emits_only P (body i)) ->
  forall fuel i, emits_only P (for_loop fuel i bound body).
Proof.
  intros Hb. induction fuel as [|fuel IH]; intros i; cbn [for_loop];
    destruct (JS.of_nat i <? bound)%num; try apply eo_ret.
  - intros st. exists []. split; [cbn; now rewrite app_nil_r | constructor].
  - apply eo_bind; [apply Hb | intros _; apply IH].
Qed.

End Fits.

(** X9.  Whatever the inputs, the renderer and the outcome, every event of a
    run fits its options: the document and every added page have the paper's
    format, every rendering is placed in the content box (margin, margin,
    usableW, usableH), and progress is reported only when a callback was
    supplied. *)
Theorem every_event_fits_options :
  forall svg2pdfFn fuel options,
    Forall (fits_options options)
      (log (snd (generateTiledPDF svg2pdfFn fuel options initial))).
Proof.
  intros svg2pdfFn fuel options.
  assert (E : emits_only (fits_options options) (generateTiledPDF svg2pdfFn fuel options)).
  { unfold generateTiledPDF. destruct (margin options <? lit 10)%num.
    - intros st. exists []. split; [cbn; now rewrite app_nil_r | constructor].
    - apply eo_bind; [now apply eo_emit | intros _].
      apply eo_bind; [now apply eo_emit | intros _].
      apply eo_bind; [now apply eo_emit | intros _].
      apply eo_bind; [|intros _; apply eo_bind; [now apply eo_emit | intros _; apply eo_ret]].
      apply eo_for_loop. intros r. apply eo_for_loop. intros c.
      unfold processTile.
      apply eo_bind; [apply eo_when; intros _; now apply eo_emit | intros _].
      apply eo_bind.
      { intros st. exists []. split; [cbn; now rewrite app_nil_r | constructor]. }
      intros count.
      apply eo_bind; [apply eo_when; intros On; now apply eo_emit | intros _].
      apply eo_bind; [|intros _; now apply eo_emit].
      unfold await_svg2pdf. apply eo_bind; [now apply eo_emit | intros _].
      destruct (svg2pdfFn _ _); [apply eo_ret|].
      intros st. exists []. split; [cbn; now rewrite app_nil_r | constructor]. }
  destruct (E initial) as (l & -> & F). exact F.
Qed.

(** ** Scale *)

Lemma svgHeightMM_formula (options : PatternSplitterOptions) (wm vw vh : Q) :
  svgWidthMM (layout options) = Fin wm ->
  at_index (viewBox (layout options)) 2 = Fin vw ->
  at_index (viewBox (layout options)) 3 = Fin vh ->
  ~ vw == 0 -> ~ vh == 0 ->
  ~ wm == 0 /\ svgHeightMM (layout options) = JS.fin (wm * vh / vw).
Proof.
  intros HW HVW HVH Nvw Nvh.
  pose proof (svgWidthMM_truthy options) as T. rewrite HW in T.
  apply truthy_spec in T. destruct T as [_ T]. specialize (T wm eq_refl).
  split; [exact T|].
  change (svgHeightMM (layout options))
    with (svgWidthMM (layout options) /
          (at_index (viewBox (layout options)) 2 /
           at_index (viewBox (layout options)) 3))%num.
  rewrite HW, HVW, HVH, (div_Fin vw vh Nvh). unfold JS.fin at 1.
  rewrite div_Fin by (rewrite Qred_correct; now apply Qdiv_nonzero).
  apply NumFacts.fin_eq. rewrite Qred_correct. field. now split.
Qed.




(** ** Progress values *)

Lemma progress_values_app (l1 l2 : list event) :
  progress_values (l1 ++ l2) = (progress_values l1 ++ progress_values l2)%list.
Proof. apply flat_map_app. Qed.

Lemma map_seq_shift {A : Type} (f : nat -> A) (a : nat) :
  forall n s, map (fun c => f (a + c)%nat) (seq s n) = map f (seq (a + s) n).
Proof.
  induction n as [|n IH]; intros s; [reflexivity|].
  cbn [seq map]. f_equal. rewrite IH. now rewrite Nat.add_succ_r.
Qed.

Lemma progress_values_expected (options : PatternSplitterOptions) (R C : nat) :
  onProgress options = true ->
  progress_values (expected_log options R C) =
  map (fun k => JS.of_Z (percent k (R * C))) (seq 1 (R * C)).
Proof.
  intros On. unfold expected_log. rewrite !progress_values_app.
  cbn [progress_values flat_map app]. rewrite app_nil_r.
  set (L := layout options). set (T := (R * C)%nat).
  assert (Row : forall r n c,
             progress_values (flat_map (tile_block options L R C r) (seq c n)) =
             map (fun c => JS.of_Z (percent (r * C + c + 1) T)) (seq c n)).
  { intros r. induction n as [|n IH]; intros c; [reflexivity|].
    cbn [seq flat_map map]. rewrite progress_values_app, IH. unfold tile_block.
    rewrite On. now destruct ((r =? 0)%nat && (c =? 0)%nat). }
  assert (Rows : forall n,
             progress_values
               (flat_map (fun r => flat_map (tile_block options L R C r) (seq 0 C))
                  (seq 0 n)) =
             map (fun k => JS.of_Z (percent k T)) (seq 1 (n * C))).
  { induction n as [|n IH]; [reflexivity|].
    rewrite seq_S, flat_map_app, progress_values_app, IH. cbn [flat_map].
    rewrite app_nil_r, Row.
    replace (S n * C)%nat with (n * C + C)%nat by lia.
    rewrite seq_app, map_app. f_equal.
    replace (1 + n * C)%nat with (1 + n * C + 0)%nat by lia.
    rewrite <- (map_seq_shift (fun k => JS.of_Z (percent k T)) (1 + n * C) C 0).
    apply map_ext. intros c. do 2 f_equal. lia. }
  apply Rows.
Qed.

Lemma percent_monotone (k k' total : nat) :
  (k <= k')%nat -> (percent k total <= percent k' total)%Z.
Proof.
  intros K. unfold percent. apply Qfloor_resp_le.
  apply Qplus_le_l. unfold Qdiv. apply Qmult_le_compat_r.
  - rewrite <- Zle_Qle. lia.
  - apply Qinv_le_0_compat. change 0 with (inject_Z 0). rewrite <- Zle_Qle. lia.
Qed.



(** ** Reading a viewBox *)

Lemma split_separator (c : ascii) (s : string) :
  isSeparator c = true ->
  filter nonempty (split isSeparator (String c s)) =
  filter nonempty (split isSeparator s).
Proof.
  intros S. cbn [split]. now rewrite S.
Qed.

Lemma split_digit (d : nat) (s : string) :
  (d < 10)%nat ->
  split isSeparator (String (digit_char d) s) =
  match split isSeparator s with
  | piece :: rest => String (digit_char d) piece :: rest
  | [] => [String (digit_char d) EmptyString]
  end.
Proof.
  intros B. cbn [split].
  replace (isSeparator (digit_char d)) with false; [reflexivity|].
  symmetry. apply (digit_char_cases (fun c => isSeparator c = false) d B); reflexivity.
Qed.

Lemma split_nonempty (s : string) : split isSeparator s <> [].
Proof.
  induction s as [|c s IH]; [discriminate|]. cbn [split].
  destruct (isSeparator c); [discriminate|].
  destruct (split isSeparator s); [now elim IH | discriminate].
Qed.

Lemma split_numeral (ds : list nat) (c : ascii) (s : string) :
  Forall (fun d => d < 10)%nat ds -> isSeparator c = true ->
  split isSeparator (numeral ds ++ String c s) = numeral ds :: split isSeparator s.
Proof.
  intros F S. induction F as [|d ds B F IH].
  - cbn [numeral String.append split]. now rewrite S.
  - cbn [numeral String.append]. rewrite (split_digit d _ B), IH. reflexivity.
Qed.

Lemma tokens_separators (sep s : string) :
  all_separators sep = true ->
  filter nonempty (split isSeparator (sep ++ s)) = filter nonempty (split isSeparator s).
Proof.
  induction sep as [|c sep IH]; [reflexivity|]. cbn [all_separators String.append].
  intros A. apply andb_prop in A as [Sc A]. rewrite split_separator by exact Sc.
  now apply IH.
Qed.

Lemma tokens_separated (items : list (list nat * string)) (s : string) :
  Forall well_separated items ->
  filter nonempty (split isSeparator (separated items ++ s)) =
  (map (fun item => numeral (fst item)) items ++
   filter nonempty (split isSeparator s))%list.
Proof.
  induction 1 as [|[ds sep] items (Ne & F & Nsep & A) _ IH]; [reflexivity|].
  cbn [fst snd] in *. cbn [separated map app].
  rewrite !string_app_assoc.
  destruct sep as [|c sep]; [discriminate|]. cbn [all_separators] in A.
  apply andb_prop in A as [Sc A].
  change (String c sep ++ separated items ++ s)%string
    with (String c (sep ++ separated items ++ s)).
  rewrite split_numeral by assumption. cbn [filter].
  replace (nonempty (numeral ds)) with true by (destruct ds; [now elim Ne | reflexivity]).
  f_equal. rewrite tokens_separators by exact A. exact IH.
Qed.

Lemma parseFloat_numeral_alone (ds : list nat) :
  ds <> [] -> Forall (fun d => d < 10)%nat ds ->
  parseFloat (numeral ds) = JS.of_Z (numeral_value 0 ds).
Proof.
  intros Ne F. destruct ds as [|d ds]; [now elim Ne|].
  pose proof (parseFloat_numeral d ds EmptyString F eq_refl) as P.
  assert (A : forall x, (x ++ EmptyString)%string = x).
  { induction x as [|c x IH]; [reflexivity|]. cbn. now rewrite IH. }
  now rewrite A in P.
Qed.

(** X13.  A viewBox is read item by item whatever separates the items: for
    integers written one after the other, each followed by any non-empty mix
    of spaces, tabs, line breaks and commas, and with any such mix in front,
    the parsed list holds exactly their values, in order.  A last integer may
    also end the string. *)
Theorem parseViewBox_reads_separated_integers :
  forall lead items,
    all_separators lead = true -> Forall well_separated items ->
    parseViewBox (lead ++ separated items) =
      map (fun item => JS.of_Z (numeral_value 0 (fst item))) items /\
    forall last,
      last <> [] -> Forall (fun d => d < 10)%nat last ->
      parseViewBox (lead ++ separated items ++ numeral last) =
      (map (fun item => JS.of_Z (numeral_value 0 (fst item))) items ++
       [JS.of_Z (numeral_value 0 last)])%list.
Proof.
  intros lead items A W.
  assert (Values : map parseFloat (map (fun item => numeral (fst item)) items) =
                   map (fun item => JS.of_Z (numeral_value 0 (fst item))) items).
  { rewrite map_map. apply map_ext_in. intros [ds sep] I. cbn [fst].
    rewrite Forall_forall in W. destruct (W _ I) as (Ne & F & _).
    now apply parseFloat_numeral_alone. }
  split.
  - unfold parseViewBox. fold isSeparator.
    change (fun c : ascii => isWhiteSpace c || Ascii.eqb c ","%char) with isSeparator.
    rewrite tokens_separators by exact A.
    pose proof (tokens_separated items EmptyString W) as T.
    assert (E : forall x, (x ++ EmptyString)%string = x).
    { induction x as [|c x IH]; [reflexivity|]. cbn. now rewrite IH. }
    rewrite E in T. rewrite T. cbn [split filter nonempty]. rewrite app_nil_r.
    exact Values.
  - intros last Ne F. unfold parseViewBox.
    change (fun c : ascii => isWhiteSpace c || Ascii.eqb c ","%char) with isSeparator.
    rewrite tokens_separators by exact A.
    rewrite (tokens_separated items (numeral last) W), map_app, Values. f_equal.
    assert (S : split isSeparator (numeral last) = [numeral last]).
    { clear Ne. induction F as [|d ds B F IH]; [reflexivity|].
      cbn [numeral]. rewrite (split_digit d _ B), IH. reflexivity. }
    rewrite S. cbn [filter].
    replace (nonempty (numeral last)) with true
      by (destruct last; [now elim Ne | reflexivity]).
    cbn [map]. now rewrite parseFloat_numeral_alone.
Qed.

Lemma parseViewBox_reads_separated_integers_witness :
  parseViewBox " 0,0 ,	 400  300" = [lit 0; lit 0; lit 400; lit 300].
Proof.
  apply (proj2 (parseViewBox_reads_separated_integers " "
                  [([0%nat], ","); ([0%nat], " ,	 "); ([4; 0; 0]%nat, "  ")]
                  eq_refl
                  ltac:(repeat constructor; discriminate)) [3; 0; 0]%nat).
  - discriminate.
  - repeat constructor.
Defined.

(** ** The marks on a tile *)

Ltac fin_arith :=
  unfold JS.sub, JS.neg, JS.fin, lit; cbn [JS.add JS.mul JS.div JS.neg];
  unfold JS.fin.

Lemma add_Fin (a b : Q) : (Fin a + Fin b)%num = JS.fin (a + b).
Proof. reflexivity. Qed.

Lemma sub_Fin (a b : Q) : (Fin a - Fin b)%num = JS.fin (a - b).
Proof.
  unfold JS.sub, JS.neg. cbn [JS.add]. apply NumFacts.fin_eq.
  unfold JS.fin. rewrite Qred_correct. ring.
Qed.

Lemma mul_Fin (a b : Q) : (Fin a * Fin b)%num = JS.fin (a * b).
Proof. reflexivity. Qed.

Lemma on_page_fin (pw ph x y : Q) :
  0 <= x <= pw -> 0 <= y <= ph -> on_page pw ph (JS.fin x, JS.fin y).
Proof.
  intros X Y. unfold on_page, JS.fin. now rewrite !Qred_correct.
Qed.

Lemma usable_Fin (p m : Q) : (Fin p - lit 2 * Fin m)%num = JS.fin (p - 2 * m).
Proof.
  unfold lit, JS.fin at 1. rewrite mul_Fin. unfold JS.fin at 1. rewrite sub_Fin.
  apply NumFacts.fin_eq. rewrite !Qred_correct. reflexivity.
Qed.

Lemma half_Fin (a : Q) : (Fin a / lit 2)%num = JS.fin (a / 2).
Proof.
  change (lit 2) with (Fin 2). apply div_Fin. discriminate.
Qed.

Lemma not_below_10 (m : Q) : (Fin m <? lit 10)%num = false -> 10 <= m.
Proof.
  unfold JS.lt, lit, JS.fin. destruct (Qlt_le_dec m (Qred 10)) as [H|H]; [discriminate|].
  intros _. now rewrite Qred_correct in H.
Qed.

Ltac expose_coordinates :=
  unfold cInner, cOuter, markRadius;
  rewrite ?half_Fin;
  unfold lit, JS.fin;
  repeat (rewrite ?add_Fin, ?sub_Fin; unfold JS.fin).

Ltac points_on_page :=
  cbn [points]; repeat constructor;
  unfold on_page; rewrite ?Qred_correct; lra.

Section OnPage.

Variables pw ph m : Q.
Hypothesis margin_floor : 10 <= m.
Hypothesis usable_width : 2 * m <= pw.
Hypothesis usable_height : 2 * m <= ph.

Let margin : num := Fin m.
Let usableW : num := JS.fin (pw - 2 * m).
Let usableH : num := JS.fin (ph - 2 * m).

Lemma cornerMarks_on_page : all_on_page pw ph (cornerMarks margin usableW usableH).
Proof.
  unfold all_on_page, cornerMarks, drawCornerMark, margin, usableW, usableH.
  cbn [app]. expose_coordinates.
  repeat (constructor; [points_on_page|]). constructor.
Qed.

Lemma drawDiamond_on_page (x y : Q) :
  (5 # 2) <= x <= pw - (5 # 2) -> (5 # 2) <= y <= ph - (5 # 2) ->
  all_on_page pw ph (drawDiamond (Fin x) (Fin y)).
Proof.
  intros X Y. unfold all_on_page, drawDiamond. expose_coordinates.
  repeat (constructor; [points_on_page|]). constructor.
Qed.

Lemma diamondMarks_on_page (r c : nat) (rows cols : num) :
  all_on_page pw ph (diamondMarks margin usableW usableH r c rows cols).
Proof.
  unfold diamondMarks, margin, usableW, usableH, JS.fin.
  rewrite !half_Fin. unfold JS.fin. rewrite !add_Fin. unfold JS.fin.
  unfold all_on_page.
  repeat (apply Forall_app; split);
    match goal with |- Forall _ (if ?b then _ else _) => destruct b end;
    try apply Forall_nil;
    apply drawDiamond_on_page; rewrite ?Qred_correct; unfold Qdiv;
    change (/ 2) with (1 # 2); split; lra.
Qed.

End OnPage.

(** X14.  With the margin validation passed and paper at least as large as
    the two margins, nothing of the alignment marks is drawn off the page: the
    dashed border of the content box, the three corner crosses and every
    diamond mark of every tile lie within the paper.  Exact arithmetic. *)
Theorem alignment_marks_stay_on_page :
  forall options pw ph m r c,
    paperWidth options = Fin pw -> paperHeight options = Fin ph ->
    margin options = Fin m ->
    (margin options <? lit 10)%num = false ->
    2 * m <= pw -> 2 * m <= ph ->
    let L := layout options in
    all_on_page pw ph
      ([Rectangle (margin options) (margin options) (usableW L) (usableH L)] ++
       cornerMarks (margin options) (usableW L) (usableH L) ++
       diamondMarks (margin options) (usableW L) (usableH L) r c (gridRows L) (gridCols L)).
Proof.
  intros options pw ph m r c Hpw Hph Hm HM Uw Uh L.
  rewrite Hm in HM. apply not_below_10 in HM.
  change (usableW L) with (paperWidth options - lit 2 * margin options)%num.
  change (usableH L) with (paperHeight options - lit 2 * margin options)%num.
  rewrite Hpw, Hph, Hm, !usable_Fin.
  apply Forall_app. split; [|apply Forall_app; split].
  - unfold JS.fin. constructor; [|constructor]. cbn [points]. expose_coordinates.
    repeat constructor; unfold on_page; rewrite ?Qred_correct; lra.
  - now apply cornerMarks_on_page.
  - now apply diamondMarks_on_page.
Qed.

Lemma alignment_marks_stay_on_page_witness :
  let L := layout (a4_margin10 svg400) in
  all_on_page 210 297
    ([Rectangle (lit 10) (lit 10) (usableW L) (usableH L)] ++
     cornerMarks (lit 10) (usableW L) (usableH L) ++
     diamondMarks (lit 10) (usableW L) (usableH L) 1 1 (gridRows L) (gridCols L)).
Proof.
  apply (alignment_marks_stay_on_page (a4_margin10 svg400) 210 297 10 1 1);
    try reflexivity; discriminate.
Defined.

Ltac same_point :=
  unfold JS.of_nat, JS.of_Z; expose_coordinates;
  repeat (rewrite ?mul_Fin, ?add_Fin, ?sub_Fin; unfold JS.fin);
  f_equal; apply Qred_complete; rewrite ?Qred_correct;
  rewrite ?Nat2Z.inj_succ; unfold Z.succ; rewrite ?inject_Z_plus;
  change (inject_Z 1) with 1; unfold Qdiv; change (/ 2) with (1 # 2); ring.

Ltac same_shapes :=
  unfold assembled; cbn [fst snd];
  repeat match goal with
         | |- _ :: _ = _ :: _ => apply f_equal2
         | |- (_, _) = (_, _) => apply f_equal2
         | |- @nil _ = @nil _ => reflexivity
         end;
  try same_point.

Lemma right_diamond_meets_left (m uw uh : Q) (r c : nat) :
  let margin := Fin m in let usableW := Fin uw in let usableH := Fin uh in
  let midH := (margin + usableH / lit 2)%num in
  assembled_points margin usableW usableH r c (drawDiamond (margin + usableW) midH) =
  assembled_points margin usableW usableH r (S c) (drawDiamond margin midH).
Proof.
  intros margin usableW usableH midH. subst margin usableW usableH midH.
  unfold assembled_points, drawDiamond. cbn [map points assembled fst snd].
  same_shapes.
Qed.

Lemma bottom_diamond_meets_top (m uw uh : Q) (r c : nat) :
  let margin := Fin m in let usableW := Fin uw in let usableH := Fin uh in
  let midW := (margin + usableW / lit 2)%num in
  assembled_points margin usableW usableH r c (drawDiamond midW (margin + usableH)) =
  assembled_points margin usableW usableH (S r) c (drawDiamond midW margin).
Proof.
  intros margin usableW usableH midW. subst margin usableW usableH midW.
  unfold assembled_points, drawDiamond. cbn [map points assembled fst snd].
  same_shapes.
Qed.

Lemma before_last (a n : nat) :
  (JS.of_nat a <? JS.of_nat n - lit 1)%num = (S a <? n)%nat.
Proof.
  change (lit 1) with (JS.of_Z 1). unfold JS.of_nat.
  rewrite NumFacts.sub_Z, lt_of_Z.
  destruct (Nat.ltb_spec (S a) n) as [H|H].
  - apply Z.ltb_lt. lia.
  - apply Z.ltb_ge. lia.
Qed.





(** ** The page: preview and export *)

Lemma page_labels_app (l1 l2 : list event) :
  page_labels (l1 ++ l2)%list = (page_labels l1 ++ page_labels l2)%list.
Proof.
  induction l1 as [|e l1 IH]; [reflexivity|].
  destruct e; cbn [app page_labels]; now rewrite ?IH.
Qed.

Lemma main_getSvgDimensionsInMM (svg : SVGElement) :
  Main.getSvgDimensionsInMM svg = getSvgDimensionsInMM svg.
Proof. reflexivity. Qed.

Lemma mirrors_for_loop (body1 : nat -> option (list Main.Box)) (body2 : nat -> M unit)
    (bound : num) :
  (forall i, mirrors (body1 i) (body2 i)) ->
  forall fuel i, mirrors (for_each fuel i bound body1) (for_loop fuel i bound body2).
Proof.
  intros Hb. induction fuel as [|fuel IH]; intros i st; cbn [for_each for_loop].
  - destruct (JS.of_nat i <? bound)%num; [exact I|].
    unfold ret. exists []. now rewrite app_nil_r.
  - destruct (JS.of_nat i <? bound)%num.
    + unfold bind. specialize (Hb i st).
      destruct (body1 i) as [xs|], (body2 i st) as [[[]|e|] st']; try contradiction;
        [|exact I].
      destruct Hb as (l & Hl & Hx). specialize (IH (S i) st').
      destruct (for_each fuel (S i) bound body1) as [ys|],
        (for_loop fuel (S i) bound body2 st') as [[[]|e|] st'']; try contradiction;
        cbn [option_map]; [|exact I].
      destruct IH as (l' & Hl' & Hy). exists (l ++ l')%list.
      rewrite Hl', Hl, <- app_assoc, map_app, page_labels_app, Hx, Hy. now split.
    + unfold ret. exists []. now rewrite app_nil_r.
Qed.

Lemma mirrors_processTile svg2pdfFn options L pctW pctH r c :
  (forall source target, svg2pdfFn source target = true) ->
  mirrors (Some [preview_box pctW pctH r c]) (processTile svg2pdfFn options L r c).
Proof.
  intros resolves st.
  unfold processTile, await_svg2pdf, bind, when, incr, emit, ret. rewrite resolves.
  destruct (_ || _), (onProgress options); cbn [log processedCount];
    rewrite <- ?app_assoc; eexists; (split; [reflexivity|]); reflexivity.
Qed.

Lemma preview_mirrors_export svg2pdfFn options L pctW pctH fuel :
  (forall source target, svg2pdfFn source target = true) ->
  mirrors
    (for_each fuel 0 (gridRows L) (fun r =>
       for_each fuel 0 (gridCols L) (fun c => Some [preview_box pctW pctH r c])))
    (for_loop fuel 0 (gridRows L) (fun r =>
       for_loop fuel 0 (gridCols L) (fun c => processTile svg2pdfFn options L r c))).
Proof.
  intros resolves. apply mirrors_for_loop. intros r.
  apply mirrors_for_loop. intros c. now apply mirrors_processTile.
Qed.

(** The options that [generatePDF] passes on *)
Lemma uploaded text fuel0 app0 els0 app els1 :
  Main.handleFileUpload fuel0 (Some text) app0 els0 = Some (app, els1) ->
  forall pW pH m,
    let svg := Main.documentElement text in
    let L := layout (mkOptions svg pW pH m true) in
    Main.currentSvgText app = Some text /\ Main.currentSvgElement app = Some svg /\
    Main.svgWidthMM app = svgWidthMM L /\ Main.svgHeightMM app = svgHeightMM L.
Proof.
  intros H pW pH m svg L. unfold Main.handleFileUpload in H.
  destruct (Main.updateGridPreview _ _ els0) as [els'|]; [|discriminate].
  cbn [option_map] in H. injection H as <- _. repeat split.
Qed.

Lemma updateGridPreview_grid fuel app els svg :
  let pW := parseFloat (Main.els_paperW els) in
  let pH := parseFloat (Main.els_paperH els) in
  let m := parseFloat (Main.els_margin els) in
  let L := layout (mkOptions svg pW pH m true) in
  let pctW := (usableW L / svgWidthMM L * lit 100)%num in
  let pctH := (usableH L / svgHeightMM L * lit 100)%num in
  Main.currentSvgElement app = Some svg ->
  Main.svgWidthMM app = svgWidthMM L -> Main.svgHeightMM app = svgHeightMM L ->
  (pW <=? lit 0)%num = false -> (pH <=? lit 0)%num = false ->
  (pW - lit 2 * m <=? lit 0)%num = false -> (pH - lit 2 * m <=? lit 0)%num = false ->
  Main.updateGridPreview fuel app els =
  match
    for_each fuel 0 (gridRows L) (fun r =>
      for_each fuel 0 (gridCols L) (fun c => Some [preview_box pctW pctH r c]))
  with
  | Some boxes =>
      Some {| Main.els_paperW := Main.els_paperW els; Main.els_paperH := Main.els_paperH els;
              Main.els_margin := Main.els_margin els;
              Main.els_stats :=
                Main.RealSize (JS.round (svgWidthMM L)) (JS.round (svgHeightMM L))
                  (totalTiles L) (gridRows L) (gridCols L);
              Main.els_grid := boxes |}
  | None => None
  end.
Proof.
  intros pW pH m L pctW pctH Hsvg Hw Hh HpW HpH HuW HuH.
  unfold Main.updateGridPreview. rewrite Hsvg.
  fold pW pH m. rewrite HpW, HpH, HuW, HuH, Hw, Hh. reflexivity.
Qed.

Lemma generatePDF_loops svg2pdfFn fuel app els text :
  let pW := parseFloat (Main.els_paperW els) in
  let pH := parseFloat (Main.els_paperH els) in
  let m := parseFloat (Main.els_margin els) in
  let options := mkOptions (Main.documentElement text) pW pH m true in
  let L := layout options in
  Main.currentSvgText app = Some text -> Main.isEmpty text = false ->
  (m <? lit 10)%num = false ->
  Main.generatePDF svg2pdfFn fuel app els =
  match
    for_loop fuel 0 (gridRows L) (fun r =>
      for_loop fuel 0 (gridCols L) (fun c => processTile svg2pdfFn options L r c))
      {| log := [Import; ParseSvg; NewPdf (pW >? pH)%num (pW, pH)]; processedCount := 0 |}
  with
  | (Returned _, st) =>
      (Main.Download {| tiles := totalTiles L; rows := gridRows L; cols := gridCols L |},
       (log st ++ [Output])%list)
  | (Thrown err, st) => (Main.Alert err, log st)
  | (OutOfFuel, st) => (Main.Pending, log st)
  end.
Proof.
  intros pW pH m options L Htext Hfull HM.
  unfold Main.generatePDF. rewrite Htext, Hfull. fold pW pH m options.
  unfold generateTiledPDF. change (margin options) with m. rewrite HM. fold L.
  unfold bind at 1 2 3. unfold emit at 1 2 3. cbn [log processedCount initial List.app].
  unfold bind at 1.
  change (paperWidth options) with pW. change (paperHeight options) with pH.
  destruct (for_loop fuel 0 (gridRows L) _ _) as [[[]|e|] st]; reflexivity.
Qed.

(** X17.  The preview shows the pages that the export produces.  For a file
    that is not empty, loaded by [handleFileUpload], and inputs that pass the
    checks of the preview and the margin validation of the export, with a
    renderer that does not reject: the statistics line of the preview names
    the tile, row and column counts of the result the export downloads, and
    the boxes of the overlay carry, in order, the labels printed on the pages
    of the document; on the same fuel the preview is cut short exactly when
    the export is. *)
Theorem preview_shows_the_pages_of_the_export :
  forall svg2pdfFn fuel0 fuel text app0 els0 app els1 els,
    (forall source target, svg2pdfFn source target = true) ->
    Main.isEmpty text = false ->
    Main.handleFileUpload fuel0 (Some text) app0 els0 = Some (app, els1) ->
    let pW := parseFloat (Main.els_paperW els) in
    let pH := parseFloat (Main.els_paperH els) in
    let m := parseFloat (Main.els_margin els) in
    (pW <=? lit 0)%num = false -> (pH <=? lit 0)%num = false ->
    (pW - lit 2 * m <=? lit 0)%num = false -> (pH - lit 2 * m <=? lit 0)%num = false ->
    (m <? lit 10)%num = false ->
    match Main.updateGridPreview fuel app els, Main.generatePDF svg2pdfFn fuel app els with
    | Some els', (Main.Download result, l) =>
        Main.els_stats els' =
          Main.RealSize (JS.round (Main.svgWidthMM app)) (JS.round (Main.svgHeightMM app))
            (tiles result) (rows result) (cols result) /\
        map printed (Main.els_grid els') = page_labels l
    | None, (Main.Pending, _) => True
    | _, _ => False
    end.
Proof.
  intros svg2pdfFn fuel0 fuel text app0 els0 app els1 els resolves Hfull Hup pW pH m
    HpW HpH HuW HuH HM.
  destruct (uploaded _ _ _ _ _ _ Hup pW pH m) as (Htext & Helt & Hw & Hh).
  rewrite (updateGridPreview_grid fuel app els (Main.documentElement text)),
    (generatePDF_loops svg2pdfFn fuel app els text) by assumption.
  fold pW pH m. rewrite Hw, Hh.
  set (options := mkOptions (Main.documentElement text) pW pH m true).
  set (L := layout options).
  match goal with
  | |- context [for_loop fuel 0 (gridRows L) ?body ?st] =>
      pose proof (preview_mirrors_export svg2pdfFn options L
                    (usableW L / svgWidthMM L * lit 100)%num
                    (usableH L / svgHeightMM L * lit 100)%num fuel resolves st) as Hsim;
      destruct (for_loop fuel 0 (gridRows L) body st) as [[[]|e|] st']
  end;
  destruct (for_each fuel 0 (gridRows L) _) as [boxes|]; try contradiction; [|exact I].
  destruct Hsim as (l & Hl & Hboxes).
  cbn [log tiles rows cols Main.els_stats Main.els_grid].
  split; [reflexivity|].
  rewrite Hl, !page_labels_app. cbn [page_labels List.app]. now rewrite app_nil_r.
Qed.

Lemma preview_shows_the_pages_of_the_export_witness :
  let els := Main.mkPage "210" "297" "10" Main.Prompt [] in
  match Main.handleFileUpload 5 (Some (Main.mkFileText false svg400)) Main.start els with
  | Some (app, _) =>
      match Main.updateGridPreview 5 app els, Main.generatePDF always_renders 5 app els with
      | Some els', (Main.Download result, l) =>
          Main.els_stats els' =
            Main.RealSize (JS.round (Main.svgWidthMM app)) (JS.round (Main.svgHeightMM app))
              (tiles result) (rows result) (cols result) /\
          map printed (Main.els_grid els') = page_labels l
      | None, (Main.Pending, _) => True
      | _, _ => False
      end
  | None => False
  end.
Proof.
  intros els.
  destruct (Main.handleFileUpload 5 (Some (Main.mkFileText false svg400)) Main.start els)
    as [[app els1]|] eqn:Hup; [|vm_compute in Hup; discriminate].
  now apply (preview_shows_the_pages_of_the_export always_renders 5 5
               (Main.mkFileText false svg400) Main.start els app els1 els).
Defined.

Lemma le_zero_Fin (a : Q) : 0 < a -> (Fin a <=? lit 0)%num = false.
Proof.
  intros A. unfold le, lit, JS.fin.
  destruct (Qlt_le_dec (Qred 0) a) as [H|H]; [reflexivity|].
  rewrite Qred_correct in H. lra.
Qed.

Lemma flat_map_singleton {A B : Type} (f : A -> B) (l : list A) :
  flat_map (fun x => [f x]) l = map f l.
Proof. induction l as [|x l IH]; [reflexivity|]. cbn [flat_map map app]. now rewrite IH. Qed.

Lemma for_each_seq {A : Type} (f : nat -> list A) (body : nat -> option (list A)) (n : nat) :
  (forall i, body i = Some (f i)) ->
  forall k fuel i, (i + k = n)%nat -> (k <= fuel)%nat ->
    for_each fuel i (JS.of_nat n) body = Some (flat_map f (seq i k)).
Proof.
  intros Hb. induction k as [|k IH]; intros fuel i Hn Hf.
  - destruct fuel; cbn [for_each]; rewrite lt_of_nat;
      now replace (i <? n)%nat with false by (symmetry; apply Nat.ltb_ge; lia).
  - destruct fuel as [|fuel]; [lia|]. cbn [for_each]. rewrite lt_of_nat.
    replace (i <? n)%nat with true by (symmetry; apply Nat.ltb_lt; lia).
    rewrite Hb, IH by lia. reflexivity.
Qed.

Lemma updateGridPreview_returns fuel app els svg (w h pw ph m : Q) :
  Main.currentSvgElement app = Some svg ->
  Main.svgWidthMM app = Fin w -> Main.svgHeightMM app = Fin h ->
  parseFloat (Main.els_paperW els) = Fin pw ->
  parseFloat (Main.els_paperH els) = Fin ph ->
  parseFloat (Main.els_margin els) = Fin m ->
  0 < w -> 0 < h -> 0 < pw -> 0 < ph -> 0 < pw - 2 * m -> 0 < ph - 2 * m ->
  let C := Z.to_nat (Qceiling (w / (pw - 2 * m))) in
  let R := Z.to_nat (Qceiling (h / (ph - 2 * m))) in
  let pctW := (pw - 2 * m) / w * 100 in
  let pctH := (ph - 2 * m) / h * 100 in
  (R <= fuel)%nat -> (C <= fuel)%nat ->
  Main.updateGridPreview fuel app els =
  Some {| Main.els_paperW := Main.els_paperW els; Main.els_paperH := Main.els_paperH els;
          Main.els_margin := Main.els_margin els;
          Main.els_stats :=
            Main.RealSize (JS.round (Fin w)) (JS.round (Fin h))
              (JS.of_nat (C * R)) (JS.of_nat R) (JS.of_nat C);
          Main.els_grid :=
            flat_map (fun r => map (preview_box (JS.fin pctW) (JS.fin pctH) r) (seq 0 C))
              (seq 0 R) |}.
Proof.
  intros Hsvg Hw Hh HpW HpH Hm W H PW PH UW UH C R pctW pctH HR HC.
  pose proof (ceiling_positive w (pw - 2 * m) W UW) as C1.
  pose proof (ceiling_positive h (ph - 2 * m) H UH) as R1.
  assert (EC : Z.of_nat C = Qceiling (w / (pw - 2 * m))) by (apply Z2Nat.id; lia).
  assert (ER : Z.of_nat R = Qceiling (h / (ph - 2 * m))) by (apply Z2Nat.id; lia).
  assert (cols_C : JS.ceil (Fin w / (Fin pw - lit 2 * Fin m))%num = JS.of_nat C).
  { rewrite usable_Fin. unfold JS.fin. rewrite ceil_div by (rewrite Qred_correct; lra).
    unfold JS.of_nat. rewrite EC. unfold JS.of_Z. do 2 f_equal.
    apply Qceiling_comp. now rewrite Qred_correct. }
  assert (rows_R : JS.ceil (Fin h / (Fin ph - lit 2 * Fin m))%num = JS.of_nat R).
  { rewrite usable_Fin. unfold JS.fin. rewrite ceil_div by (rewrite Qred_correct; lra).
    unfold JS.of_nat. rewrite ER. unfold JS.of_Z. do 2 f_equal.
    apply Qceiling_comp. now rewrite Qred_correct. }
  assert (pct_W : ((Fin pw - lit 2 * Fin m) / Fin w * lit 100)%num = JS.fin pctW).
  { rewrite usable_Fin. unfold JS.fin at 1. rewrite div_Fin by lra.
    unfold lit, JS.fin at 1 2. rewrite mul_Fin. apply NumFacts.fin_eq.
    now rewrite !Qred_correct. }
  assert (pct_H : ((Fin ph - lit 2 * Fin m) / Fin h * lit 100)%num = JS.fin pctH).
  { rewrite usable_Fin. unfold JS.fin at 1. rewrite div_Fin by lra.
    unfold lit, JS.fin at 1 2. rewrite mul_Fin. apply NumFacts.fin_eq.
    now rewrite !Qred_correct. }
  unfold Main.updateGridPreview.
  rewrite Hsvg, HpW, HpH, Hm, Hw, Hh, !le_zero_Fin by assumption.
  rewrite !usable_Fin. unfold JS.fin at 1 2.
  rewrite !le_zero_Fin by (rewrite Qred_correct; lra).
  cbn [orb]. fold (JS.fin (pw - 2 * m)) (JS.fin (ph - 2 * m)).
  rewrite <- !usable_Fin, cols_C, rows_R, pct_W, pct_H.
  rewrite (for_each_seq
             (fun r => map (preview_box (JS.fin pctW) (JS.fin pctH) r) (seq 0 C))
             _ R) with (k := R) by
    (try lia; intros r;
     rewrite (for_each_seq (fun c => [preview_box (JS.fin pctW) (JS.fin pctH) r c]) _ C)
       with (k := C) by (reflexivity || lia);
     now rewrite flat_map_singleton).
  now rewrite mul_of_nat.
Qed.



Lemma length_flat_map_rows {A B : Type} (f : A -> list B) (n : nat) (l : list A) :
  (forall x, List.length (f x) = n) ->
  List.length (flat_map f l) = (List.length l * n)%nat.
Proof.
  intros Hf. induction l as [|x l IH]; [reflexivity|].
  cbn [flat_map List.length]. rewrite length_app, Hf, IH. lia.
Qed.


